(** * ElasticityTest: Q1 trace functions, body force and command line handling

    A shallow embedding of the parts of the repository that the
    specification makes checkable statements about:

    - [BasisFun]   : [include/basis_funs.tpp], the class [BasisQ1<dim>];
    - [Elasticity] : [include/forces_and_lame_parameters.h], the class
                     [BodyForce<dim>];
    - [Main]       : [source/main.cxx], the function [main].

    Numbers.  The code of [BasisQ1] is embedded over an arithmetic and read
    in two: [binary64], the IEEE 754 doubles on which the program computes,
    and [exact], the rational numbers, in which no operation rounds.  What
    is proved for every arithmetic holds of the program; what is proved in
    [exact] says so.  The body force only forms one product and is stated
    over the rationals. *)

From Stdlib Require Import QArith Qcanon String Ascii ZArith List DecimalString
  PrimFloat.
From stdpp Require Import base list numbers strings.

Set Default Proof Using "Type".

(** For the forces: a [double] as a rational number. *)
Abbreviation double := Qc (only parsing).

(** [Point<dim>]: the coordinates [p(0)], ..., [p(dim-1)]. *)
Abbreviation Point := (list double) (only parsing).

(** [Vector<double>]: a resizable array of numbers. *)
Abbreviation Vector := (list double) (only parsing).

Module BasisFun.

(** ** Arithmetic

    The code of [BasisQ1] uses numbers through [0], [1], [+] and [*] only.
    It is embedded once, over an arithmetic that provides these, and read
    at two of them: [binary64], the arithmetic of the C++ type [double] on
    which the program runs, and [exact], the rational numbers, in which
    every operation is carried out without rounding. *)

Class Arithmetic : Type := {
  number : Type;
  zero : number;
  one : number;
  plus : number -> number -> number;
  times : number -> number -> number;
  one_neq_zero : one <> zero
}.

Declare Scope arithmetic_scope.
Delimit Scope arithmetic_scope with arith.
Notation "0" := zero : arithmetic_scope.
Notation "1" := one : arithmetic_scope.
Infix "+" := plus : arithmetic_scope.
Infix "*" := times : arithmetic_scope.

(** IEEE 754 binary64 with rounding to nearest, the kernel's floats. *)
Definition binary64 : Arithmetic := {|
  number := float;
  zero := 0%float;
  one := 1%float;
  plus := PrimFloat.add;
  times := PrimFloat.mul;
  one_neq_zero := fun H : 1%float = 0%float =>
    eq_ind true (fun b : bool => if b then True else False) I false
           (f_equal (PrimFloat.ltb 0%float) H)
|}.

(** The rational numbers. *)
Definition exact : Arithmetic := {|
  number := Qc;
  zero := Q2Qc 0;
  one := Q2Qc 1;
  plus := Qcplus;
  times := Qcmult;
  one_neq_zero := Q_apart_0_1
|}.

#[export] Instance exact_eq_dec : EqDecision (@number exact) := Qc_eq_dec.

(** A rational as a number of [exact]. *)
Definition rational (q : Q) : @number exact := Q2Qc q.

Section Code.

Context {A : Arithmetic}.

Local Open Scope arithmetic_scope.

(** [double], [Point<dim>], [Vector<double>] and [FullMatrix<double>]
    over the arithmetic. *)
Abbreviation double := number (only parsing).
Abbreviation Point := (list number) (only parsing).
Abbreviation Vector := (list number) (only parsing).
Abbreviation FullMatrix := (list (list number)) (only parsing).

(** ** The pieces of deal.II that [BasisQ1] touches *)

(** [p(i)] for a point.  deal.II checks the index in debug builds only;
    here a read past the end gives 0. *)
Definition coord (p : Point) (i : nat) : double := nth i p 0.

(** [FullMatrix<double> A(m, n)]: all entries are zero. *)
Definition new_matrix (m n : nat) : FullMatrix := replicate m (replicate n 0).

(** Read access [A(i, j)]; a read outside the matrix gives 0. *)
Definition entry (A : FullMatrix) (i j : nat) : double := nth j (nth i A []) 0.

(** Write access [A(i, j) = x]; a write outside the matrix is dropped. *)
Definition set_entry (A : FullMatrix) (i j : nat) (x : double) : FullMatrix :=
  alter (fun row : list double => <[j := x]> row) i A.

(** Write access [v(i) = x] for a [Vector<double>].  The source requires
    [i] to be below the size of [v] (deal.II asserts it in debug builds and
    leaves the access unchecked otherwise); the model covers the writes
    within the size and leaves the vector as it is for the others. *)
Definition set_component (v : Vector) (i : nat) (x : double) : Vector :=
  <[i := x]> v.

(** [Vector<double> v(n)]: [n] zeros; also the effect of [v = 0]. *)
Definition zero_vector (n : nat) : Vector := replicate n 0.

(** A coarse cell is used through [cell->vertex(i)] only. *)
Record Cell : Type := { vertex : nat -> Point }.

(** ** Matrix algebra used to state what [invert] delivers *)

Definition sum_upto (n : nat) (f : nat -> double) : double :=
  foldr plus 0 (map f (seq 0 n)).

Definition tabulate (m n : nat) (f : nat -> nat -> double) : FullMatrix :=
  map (fun i => map (f i) (seq 0 n)) (seq 0 m).

Definition kronecker (i j : nat) : double := if Nat.eqb i j then 1 else 0.

Definition identity (n : nat) : FullMatrix := tabulate n n kronecker.

(** Product of two [n] x [n] matrices. *)
Definition mmul (n : nat) (A B : FullMatrix) : FullMatrix :=
  tabulate n n (fun i j => sum_upto n (fun k => entry A i k * entry B k j)).

Definition has_shape (m n : nat) (A : FullMatrix) : Prop :=
  length A = m /\ Forall (fun row => length row = n) A.

(** [C] is the inverse of the [n] x [n] matrix [M]. *)
Definition is_inverse (n : nat) (M C : FullMatrix) : Prop :=
  has_shape n n C /\ mmul n M C = identity n /\ mmul n C M = identity n.

Definition invertible (n : nat) (M : FullMatrix) : Prop :=
  exists C, is_inverse n M C.

(** ** The class [BasisQ1<dim>] *)

Record BasisQ1 (dim : nat) : Type := mkBasisQ1 {
  index_basis : nat;
  coeff_matrix : FullMatrix
}.
Arguments mkBasisQ1 {dim} _ _.
Arguments index_basis {dim} _.
Arguments coeff_matrix {dim} _.

(** [BasisQ1<dim>::BasisQ1(const BasisQ1<dim> &basis)] *)
Definition copy {dim : nat} (basis : BasisQ1 dim) : BasisQ1 dim :=
  {| index_basis := 0; coeff_matrix := coeff_matrix basis |}.

(** [BasisQ1<dim>::set_index] *)
Definition set_index {dim : nat} (b : BasisQ1 dim) (index : nat) : BasisQ1 dim :=
  {| index_basis := index; coeff_matrix := coeff_matrix b |}.

(** Body of the loop of [BasisQ1<2>::BasisQ1]: row [i] of [point_matrix]. *)
Definition fill_row_2 (cell : Cell) (point_matrix : FullMatrix) (i : nat)
    : FullMatrix :=
  let p := vertex cell i in
  let point_matrix := set_entry point_matrix i 0 1 in
  let point_matrix := set_entry point_matrix i 1 (coord p 0) in
  let point_matrix := set_entry point_matrix i 2 (coord p 1) in
  set_entry point_matrix i 3 (coord p 0 * coord p 1).

Definition point_matrix_2 (cell : Cell) : FullMatrix :=
  foldl (fill_row_2 cell) (new_matrix 4 4) (seq 0 4).

(** Body of the loop of [BasisQ1<3>::BasisQ1]. *)
Definition fill_row_3 (cell : Cell) (point_matrix : FullMatrix) (i : nat)
    : FullMatrix :=
  let p := vertex cell i in
  let point_matrix := set_entry point_matrix i 0 1 in
  let point_matrix := set_entry point_matrix i 1 (coord p 0) in
  let point_matrix := set_entry point_matrix i 2 (coord p 1) in
  let point_matrix := set_entry point_matrix i 3 (coord p 2) in
  let point_matrix := set_entry point_matrix i 4 (coord p 0 * coord p 1) in
  let point_matrix := set_entry point_matrix i 5 (coord p 1 * coord p 2) in
  let point_matrix := set_entry point_matrix i 6 (coord p 0 * coord p 2) in
  set_entry point_matrix i 7 (coord p 0 * coord p 1 * coord p 2).

Definition point_matrix_3 (cell : Cell) : FullMatrix :=
  foldl (fill_row_3 cell) (new_matrix 8 8) (seq 0 8).

Section Constructors.

(** [coeff_matrix.invert(point_matrix)] is a call into deal.II; the
    routine is a parameter of the constructors. *)
Variable invert : FullMatrix -> option FullMatrix.

(** [BasisQ1<2>::BasisQ1(cell)]; [None] when [invert] raises. *)
Definition BasisQ1_2 (cell : Cell) : option (BasisQ1 2) :=
  C ← invert (point_matrix_2 cell);
  Some {| index_basis := 0; coeff_matrix := C |}.

(** [BasisQ1<3>::BasisQ1(cell)]; [None] when [invert] raises. *)
Definition BasisQ1_3 (cell : Cell) : option (BasisQ1 3) :=
  C ← invert (point_matrix_3 cell);
  Some {| index_basis := 0; coeff_matrix := C |}.

End Constructors.

(** The local variable [value] of [BasisQ1<2>::vector_value]. *)
Definition value_2 (b : BasisQ1 2) (p : Point) : double :=
  entry (coeff_matrix b) 0 (index_basis b) +
  entry (coeff_matrix b) 1 (index_basis b) * coord p 0 +
  entry (coeff_matrix b) 2 (index_basis b) * coord p 1 +
  entry (coeff_matrix b) 3 (index_basis b) * coord p 0 * coord p 1.

(** [BasisQ1<2>::vector_value]: the output vector is passed in and two of
    its components are overwritten. *)
Definition vector_value_2 (b : BasisQ1 2) (p : Point) (vector_value : Vector)
    : Vector :=
  let value := value_2 b p in
  let vector_value := set_component vector_value 0 value in
  set_component vector_value 1 value.

(** The local variable [value] of [BasisQ1<3>::vector_value]. *)
Definition value_3 (b : BasisQ1 3) (p : Point) : double :=
  entry (coeff_matrix b) 0 (index_basis b) +
  entry (coeff_matrix b) 1 (index_basis b) * coord p 0 +
  entry (coeff_matrix b) 2 (index_basis b) * coord p 1 +
  entry (coeff_matrix b) 3 (index_basis b) * coord p 2 +
  entry (coeff_matrix b) 4 (index_basis b) * coord p 0 * coord p 1 +
  entry (coeff_matrix b) 5 (index_basis b) * coord p 1 * coord p 2 +
  entry (coeff_matrix b) 6 (index_basis b) * coord p 0 * coord p 2 +
  entry (coeff_matrix b) 7 (index_basis b) * coord p 0 * coord p 1 * coord p 2.

(** [BasisQ1<3>::vector_value] *)
Definition vector_value_3 (b : BasisQ1 3) (p : Point) (vector_value : Vector)
    : Vector :=
  let value := value_3 b p in
  let vector_value := set_component vector_value 0 value in
  let vector_value := set_component vector_value 1 value in
  set_component vector_value 2 value.

(** [v(i)] for a [Vector<double>]; a read past the end gives 0. *)
Definition component (v : Vector) (i : nat) : double := nth i v 0.

(** [Tensor<1, 2>] and [Tensor<1, 3>]: fixed numbers of components. *)
Definition Tensor1_2 : Type := double * double.
Definition Tensor1_3 : Type := double * double * double.

(** [BasisQ1<2>::vector_value_list].  The [Assert] on the two sizes, which
    deal.II compiles into debug builds, is the [None] result; the source
    requires the sizes to agree.  [values[p]] is handed to [vector_value] by
    reference. *)
Definition vector_value_list_2 (b : BasisQ1 2) (points : list Point)
    (values : list Vector) : option (list Vector) :=
  if decide (length points = length values) then
    Some (foldl (fun values p =>
                   alter (vector_value_2 b (points !!! p)) p values)
                values (seq 0 (length points)))
  else None.

(** [BasisQ1<3>::vector_value_list] *)
Definition vector_value_list_3 (b : BasisQ1 3) (points : list Point)
    (values : list Vector) : option (list Vector) :=
  if decide (length points = length values) then
    Some (foldl (fun values p =>
                   alter (vector_value_3 b (points !!! p)) p values)
                values (seq 0 (length points)))
  else None.

(** One pass through the loop of [BasisQ1<2>::tensor_value_list]; the
    state is the scratch vector [value_tmp] together with [values]. *)
Definition tensor_step_2 (b : BasisQ1 2) (points : list Point)
    (st : Vector * list Tensor1_2) (p : nat) : Vector * list Tensor1_2 :=
  let '(value_tmp, values) := st in
  let value_tmp := zero_vector (length value_tmp) in
  let value_tmp := vector_value_2 b (points !!! p) value_tmp in
  let values :=
    alter (fun t : Tensor1_2 => (component value_tmp 0, t.2)) p values in
  let values :=
    alter (fun t : Tensor1_2 => (t.1, component value_tmp 1)) p values in
  (value_tmp, values).

(** [BasisQ1<2>::tensor_value_list] *)
Definition tensor_value_list_2 (b : BasisQ1 2) (points : list Point)
    (values : list Tensor1_2) : option (list Tensor1_2) :=
  if decide (length points = length values) then
    let value_tmp := zero_vector 2 in
    Some (foldl (tensor_step_2 b points) (value_tmp, values)
                (seq 0 (length points))).2
  else None.

(** One pass through the loop of [BasisQ1<3>::tensor_value_list]. *)
Definition tensor_step_3 (b : BasisQ1 3) (points : list Point)
    (st : Vector * list Tensor1_3) (p : nat) : Vector * list Tensor1_3 :=
  let '(value_tmp, values) := st in
  let value_tmp := zero_vector (length value_tmp) in
  let value_tmp := vector_value_3 b (points !!! p) value_tmp in
  let values :=
    alter (fun t : Tensor1_3 => (component value_tmp 0, t.1.2, t.2)) p values in
  let values :=
    alter (fun t : Tensor1_3 => (t.1.1, component value_tmp 1, t.2)) p values in
  let values :=
    alter (fun t : Tensor1_3 => (t.1, component value_tmp 2)) p values in
  (value_tmp, values).

(** [BasisQ1<3>::tensor_value_list] *)
Definition tensor_value_list_3 (b : BasisQ1 3) (points : list Point)
    (values : list Tensor1_3) : option (list Tensor1_3) :=
  if decide (length points = length values) then
    let value_tmp := zero_vector 3 in
    Some (foldl (tensor_step_3 b points) (value_tmp, values)
                (seq 0 (length points))).2
  else None.

(** The rank-1 tensor holding the first components of a vector. *)
Definition tensor_of_2 (v : Vector) : Tensor1_2 := (component v 0, component v 1).
Definition tensor_of_3 (v : Vector) : Tensor1_3 :=
  (component v 0, component v 1, component v 2).

(** The unit square and the unit cube, vertices in the order of deal.II. *)
Definition unit_square : Cell :=
  {| vertex i := [if Nat.odd i then 1 else 0;
                  if Nat.odd (i / 2) then 1 else 0] |}.

Definition unit_cube : Cell :=
  {| vertex i := [if Nat.odd i then 1 else 0;
                  if Nat.odd (i / 2) then 1 else 0;
                  if Nat.odd (i / 4) then 1 else 0] |}.

(** ** The notions of the specification *)

(** The tensor-product monomials at a point, in the order of the
    specification: [1, x1, x2, x1 x2] and
    [1, x1, x2, x3, x1 x2, x2 x3, x1 x3, x1 x2 x3]. *)
Definition monomials_2 (x : Point) : list double :=
  [1; coord x 0; coord x 1; coord x 0 * coord x 1].

Definition monomials_3 (x : Point) : list double :=
  [1; coord x 0; coord x 1; coord x 2;
   coord x 0 * coord x 1; coord x 1 * coord x 2; coord x 0 * coord x 2;
   coord x 0 * coord x 1 * coord x 2].

(** The matrix whose row [w] holds the monomials at vertex [w]. *)
Definition vertex_monomials_2 (cell : Cell) : FullMatrix :=
  map (fun w => monomials_2 (vertex cell w)) (seq 0 4).

Definition vertex_monomials_3 (cell : Cell) : FullMatrix :=
  map (fun w => monomials_3 (vertex cell w)) (seq 0 8).

(** The scalar polynomial whose coefficients are column [v] of [C]. *)
Definition trace_polynomial_2 (C : FullMatrix) (v : nat) (x : Point) : double :=
  sum_upto 4 (fun k => entry C k v * nth k (monomials_2 x) 0).

Definition trace_polynomial_3 (C : FullMatrix) (v : nat) (x : Point) : double :=
  sum_upto 8 (fun k => entry C k v * nth k (monomials_3 x) 0).

(** The Dirichlet datum of local coarse DoF [k] in the words of the
    specification: [T (k / dim)] in component [k mod dim], zero in the other
    components. *)
Definition dof_trace (dim : nat) (T : nat -> Point -> double) (k : nat)
    (x : Point) : Vector :=
  map (fun c => if Nat.eqb c (k mod dim) then T (k / dim)%nat x else 0)
      (seq 0 dim).

(** ** Q1 polynomials, interpolants and some cells *)

(** The Q1 polynomial with the coefficients [a] on the monomials. *)
Definition q1_polynomial_2 (a : list double) (x : Point) : double :=
  sum_upto 4 (fun j => nth j a 0 * nth j (monomials_2 x) 0).

Definition q1_polynomial_3 (a : list double) (x : Point) : double :=
  sum_upto 8 (fun j => nth j a 0 * nth j (monomials_3 x) 0).

(** The combination of the traces of [b] with the values of [q] at the
    vertices of [cell]; the value of trace [v] is what [vector_value] writes
    after [set_index v]. *)
Definition interpolant_2 (b : BasisQ1 2) (cell : Cell) (q : Point -> double)
    (x : Point) : double :=
  sum_upto 4 (fun v => q (vertex cell v) * value_2 (set_index b v) x).

Definition interpolant_3 (b : BasisQ1 3) (cell : Cell) (q : Point -> double)
    (x : Point) : double :=
  sum_upto 8 (fun v => q (vertex cell v) * value_3 (set_index b v) x).

(** The axis-aligned rectangle with the corners [(x0, y0)] and [(x1, y1)],
    vertices in the order of deal.II. *)
Definition rectangle (x0 x1 y0 y1 : double) : Cell :=
  {| vertex i := [if Nat.odd i then x1 else x0;
                  if Nat.odd (i / 2) then y1 else y0] |}.

(** A cell all of whose vertices are the origin. *)
Definition collapsed_cell : Cell := {| vertex _ := [0; 0; 0] |}.

End Code.

Arguments mkBasisQ1 {A dim} _ _.
Arguments index_basis {A dim} _.
Arguments coeff_matrix {A dim} _.

Local Open Scope Qc_scope.

(** ** An exact Gauss-Jordan elimination

    A concrete routine to put in the place of [invert] where one is needed
    to run the constructors in the arithmetic [exact]: elimination with row
    exchange on [M | 1]. *)

Fixpoint find_pivot (col i : nat) (rows : list (list (@number exact))) : option nat :=
  match rows with
  | [] => None
  | row :: rows' =>
      if bool_decide (col <= i)%nat && negb (bool_decide (nth col row 0 = 0))
      then Some i
      else find_pivot col (S i) rows'
  end.

Definition eliminate_column (col : nat) (A : list (list (@number exact)))
    : option (list (list (@number exact))) :=
  r ← find_pivot col 0 A;
  let A := <[col := nth r A []]> (<[r := nth col A []]> A) in
  let pivot_row := nth col A [] in
  let pivot_row := map (Qcmult (/ nth col pivot_row 0)) pivot_row in
  Some (imap (fun i row =>
                if Nat.eqb i col then pivot_row
                else zip_with (fun x y => x - nth col row 0 * y) row pivot_row)
             A).

Definition gauss_jordan (n : nat) (M : list (list (@number exact)))
    : option (list (list (@number exact))) :=
  A ← foldl (fun oA col => A ← oA; eliminate_column col A)
            (Some (zip_with app M (identity (A := exact) n))) (seq 0 n);
  Some (map (drop n) A).

(** ** Two concrete trace objects *)

(** The object that the constructor builds on the unit square when
    [invert] is the exact elimination. *)
Definition unit_square_basis : BasisQ1 (A := exact) 2 :=
  @mkBasisQ1 exact 2 0
    (default [] (gauss_jordan 4 (point_matrix_2 (A := exact) unit_square))).

Definition unit_cube_basis : BasisQ1 (A := exact) 3 :=
  @mkBasisQ1 exact 3 0
    (default [] (gauss_jordan 8 (point_matrix_3 (A := exact) unit_cube))).

(** ** Trace objects in binary64 *)

(** The coefficient matrix of the unit square: the inverse of its point
    matrix has the entries 0, 1 and -1, which are doubles. *)
Definition unit_square_basis_binary64 : BasisQ1 (A := binary64) 2 :=
  @mkBasisQ1 binary64 2 0
    [[1; 0; 0; 0]; [-1; 1; 0; 0]; [-1; 0; 1; 0]; [1; -1; -1; 1]]%float.

(** The same for the unit cube. *)
Definition unit_cube_basis_binary64 : BasisQ1 (A := binary64) 3 :=
  @mkBasisQ1 binary64 3 0
    [[1; 0; 0; 0; 0; 0; 0; 0];
     [-1; 1; 0; 0; 0; 0; 0; 0];
     [-1; 0; 1; 0; 0; 0; 0; 0];
     [-1; 0; 0; 0; 1; 0; 0; 0];
     [1; -1; -1; 1; 0; 0; 0; 0];
     [1; 0; -1; 0; -1; 0; 1; 0];
     [1; -1; 0; 0; -1; 1; 0; 0];
     [-1; 1; 1; -1; 1; -1; -1; 1]]%float.

(** The inverse of the point matrix of the rectangle [[0, 253] x [0, 1]]
    has the entries 0, 1, -1, 1/253 and -1/253.  In [exact]: *)
Definition inverse_253_exact : list (list (@number exact)) :=
  let c := Q2Qc (1 # 253) in
  [[1; 0; 0; 0]; [- c; c; 0; 0]; [- 1; 0; 1; 0]; [c; - c; - c; c]]%Qc.

(** and in binary64, with the double [c] in the place of 1/253: *)
Definition inverse_253 (c : float) : list (list float) :=
  [[1; 0; 0; 0]; [- c; c; 0; 0]; [-1; 0; 1; 0]; [c; - c; - c; c]]%float.

(** The double nearest to 1/253, which is below it, and the next double,
    which is above it. *)
Definition nearest_253 : float := (1 / 253)%float.
Definition above_253 : float := next_up nearest_253.

End BasisFun.

(** * Forces: [include/forces_and_lame_parameters.h] *)

Module Elasticity.

Local Open Scope Qc_scope.

(** The data members of [BodyForce<dim>]. *)
Record BodyForce (dim : nat) : Set := mkBodyForce {
  grav : double;
  rho : double;
  force_value : double
}.
Arguments mkBodyForce {dim} _ _ _.
Arguments grav {dim} _.
Arguments rho {dim} _.
Arguments force_value {dim} _.

(** The default member initialiser [const double grav = 9.81]. *)
Definition grav_init : double := Q2Qc (981 # 100).

(** [BodyForce<dim>::BodyForce(const double rho)] *)
Definition new_BodyForce (dim : nat) (rho : double) : BodyForce dim :=
  {| grav := grav_init; rho := rho; force_value := grav_init * rho |}.

(** Modelled from the spec: the body of [BodyForce<dim>::value], which the
    header declares and whose definition is not among the sources.  The
    force is [rho * g * e_down], the same at every point; [e_down] is the
    unit vector against the last coordinate axis. *)
Definition value {dim : nat} (f : BodyForce dim) (p : Point) (component : nat)
    : double :=
  if Nat.eqb component (dim - 1) then - force_value f else 0.

(** Modelled from the spec: the body of [BodyForce<dim>::vector_value],
    declared in the header and defined outside the sources: all [dim]
    components of the force at the point. *)
Definition vector_value {dim : nat} (f : BodyForce dim) (point : Point)
    : Vector :=
  map (value f point) (seq 0 dim).

(** Modelled from the spec: the body of [BodyForce<dim>::vector_value_list],
    declared in the header and defined outside the sources: the batched
    form of [vector_value]. *)
Definition vector_value_list {dim : nat} (f : BodyForce dim)
    (points : list Point) : list Vector :=
  map (vector_value f) points.

End Elasticity.

(** * The program entry: [source/main.cxx] *)

Module Main.

Local Open Scope string_scope.

(** What the process has written to its two streams. *)
Record World : Set := mkWorld { cout : string; cerr : string }.

(** A C++ exception in flight: one derived from [std::exception], with
    its [what()], or anything else. *)
Inductive exception : Set :=
  | std_exception (what : string)
  | unknown_exception.

(** How a piece of code ends: it returns a value, it throws, or it calls
    [exit(code)]. *)
Inductive Outcome (A : Type) : Type :=
  | Normal (a : A)
  | Thrown (e : exception)
  | Exited (code : Z).
Arguments Normal {A} _.
Arguments Thrown {A} _.
Arguments Exited {A} _.

(** Code that writes to the streams and ends in one of the three ways. *)
Definition M (A : Type) : Type := World -> Outcome A * World.

#[export] Instance M_ret : MRet M := fun A a w => (Normal a, w).

#[export] Instance M_bind : MBind M := fun A B k m w =>
  match m w with
  | (Normal a, w') => k a w'
  | (Thrown e, w') => (Thrown e, w')
  | (Exited c, w') => (Exited c, w')
  end.

Definition exit {A : Type} (code : Z) : M A := fun w => (Exited code, w).

(** [std::cout << s] and [std::cerr << s] *)
Definition to_cout (s : string) : M unit :=
  fun w => (Normal (), {| cout := cout w +:+ s; cerr := cerr w |}).

Definition to_cerr (s : string) : M unit :=
  fun w => (Normal (), {| cout := cout w; cerr := cerr w +:+ s |}).

(** The end of the scope of an object with a destructor: the destructor
    runs when the scope is left by falling off its end or by an exception,
    and does not run when [exit] ends the process. *)
Definition with_destructor {A : Type} (destructor : World -> World) (body : M A)
    : M A := fun w =>
  match body w with
  | (Normal a, w') => (Normal a, destructor w')
  | (Thrown e, w') => (Thrown e, destructor w')
  | (Exited c, w') => (Exited c, w')
  end.

(** [try { body } catch (std::exception &exc) { h1 } catch (...) { h2 }] *)
Definition try_catch {A : Type} (body : M A) (handler : exception -> M A)
    : M A := fun w =>
  match body w with
  | (Thrown e, w') => handler e w'
  | r => r
  end.

Definition endl : string := String "010"%char EmptyString.
Definition dquote : string := String "034"%char EmptyString.

(** [operator<<] for an unsigned number. *)
Definition decimal (n : nat) : string := NilZero.string_of_uint (Nat.to_uint n).

(** Everything the [try] block of [main] calls outside this file. *)
Record Env : Type := {
  DEBUG : bool;
  depth_console : nat -> M unit;
  set_thread_limit : nat -> M unit;
  (** constructor of [MPI_InitFinalize], with [argv] and [max_threads];
      [None] is [numbers::invalid_unsigned_int] *)
  MPI_InitFinalize : list string -> option nat -> M unit;
  (** destructor of [MPI_InitFinalize] *)
  MPI_finalize : World -> World;
  MPI_Get_processor_name : string;
  this_mpi_process : nat;
  n_mpi_processes : nat;
  n_cores : nat;
  n_threads : nat;
  (** [Dimension dimension(input_file)] followed by [dimension.dim] *)
  Dimension : string -> M Z;
  run_2d_problem : string -> M unit;
  run_3d_problem : string -> M unit
}.

(** The loop [while (args.size())]: every pass takes arguments off the
    front of [args], so the recursion is on the list. *)
Fixpoint parse_args (args : list string) (input_file : string) : M string :=
  match args with
  | [] => mret input_file
  | front :: rest =>
      if String.eqb front "-p" then
        match rest with
        | [] =>
            to_cerr ("Error: flag '-p' must be followed by the " +:+
                     "name of a parameter file." +:+ endl);;
            exit 1
        | file :: rest' => parse_args rest' file
        end
      else
        to_cerr ("Unknown command line option: " +:+ front +:+ endl);;
        exit 1
  end.

Section WithEnv.

Variable env : Env.

Definition say_hello_from_cluster : bool := true.

Definition hello : M unit :=
  let proc_name := MPI_Get_processor_name env in
  to_cout ("Hello from   " +:+ proc_name +:+ "   Rank:   " +:+
           decimal (this_mpi_process env) +:+ "   out of   " +:+
           decimal (n_mpi_processes env) +:+ "   | cores = " +:+
           decimal (n_cores env) +:+ "   | threads = " +:+
           decimal (n_threads env) +:+ endl).

(** What follows the construction of [mpi_initialization] in the [try]
    block. *)
Definition run (input_file : string) : M unit :=
  (if say_hello_from_cluster then hello else mret ());;
  dim ← Dimension env input_file;
  if (dim =? 2)%Z then run_2d_problem env input_file
  else if (dim =? 3)%Z then run_3d_problem env input_file
  else (to_cout ("The dimension must be 2 or 3." +:+ endl);; exit 1).

(** The start of the [try] block, up to and including the construction
    of [mpi_initialization]. *)
Definition setup (argv : list string) : M unit :=
  depth_console env 2;;
  if DEBUG env then
    set_thread_limit env 1;;
    MPI_InitFinalize env argv (Some 1%nat)
  else MPI_InitFinalize env argv None.

(** The [try] block. *)
Definition try_block (argv : list string) (input_file : string) : M unit :=
  setup argv;;
  with_destructor (MPI_finalize env) (run input_file).

Definition rule : string :=
  "----------------------------------------------------".

(** The two [catch] clauses. *)
Definition handler (e : exception) : M Z :=
  match e with
  | std_exception what =>
      to_cerr (endl +:+ endl +:+ rule +:+ endl);;
      to_cerr ("Exception on processing: " +:+ endl +:+ what +:+ endl +:+
               "Aborting!" +:+ endl +:+ rule +:+ endl);;
      mret 1%Z
  | unknown_exception =>
      to_cerr (endl +:+ endl +:+ rule +:+ endl);;
      to_cerr ("Unknown exception!" +:+ endl +:+
               "Aborting!" +:+ endl +:+ rule +:+ endl);;
      mret 1%Z
  end.

(** [main]; [argc] is the length of [argv]. *)
Definition main (argv : list string) : M Z :=
  let argc := length argv in
  if (argc <? 2)%nat then
    to_cout ("You must provide an input file " +:+ dquote +:+
             "-p <filename>" +:+ dquote +:+ endl);;
    exit 1
  else
    input_file ← parse_args (drop 1 argv) EmptyString;
    try_catch (try_block argv input_file;; mret 0%Z) handler.

End WithEnv.

(** The command line [-p f1 -p f2 ...]. *)
Definition pairs (files : list string) : list string :=
  files ≫= (fun file => ["-p"; file]).

(** An environment in which nothing fails and nothing is printed. *)
Definition quiet_env (dim : Z) : Env := {|
  DEBUG := false;
  depth_console _ := mret ();
  set_thread_limit _ := mret ();
  MPI_InitFinalize _ _ := mret ();
  MPI_finalize w := w;
  MPI_Get_processor_name := "node";
  this_mpi_process := 0;
  n_mpi_processes := 1;
  n_cores := 1;
  n_threads := 1;
  Dimension _ := mret dim;
  run_2d_problem _ := mret ();
  run_3d_problem _ := mret ()
|}.

(** An environment in which reading the parameter file throws. *)
Definition throwing_env (e : exception) : Env := {|
  DEBUG := true;
  depth_console _ := mret ();
  set_thread_limit _ := mret ();
  MPI_InitFinalize _ _ := mret ();
  MPI_finalize w := w;
  MPI_Get_processor_name := "node";
  this_mpi_process := 0;
  n_mpi_processes := 1;
  n_cores := 1;
  n_threads := 1;
  Dimension _ := fun w => (Thrown e, w);
  run_2d_problem _ := mret ();
  run_3d_problem _ := mret ()
|}.

Definition start : World := {| cout := EmptyString; cerr := EmptyString |}.

(** The text that the [catch] clauses write to [std::cerr]. *)
Definition banner (e : exception) : string :=
  match e with
  | std_exception what =>
      (endl +:+ endl +:+ rule +:+ endl) +:+
      ("Exception on processing: " +:+ endl +:+ what +:+ endl +:+
       "Aborting!" +:+ endl +:+ rule +:+ endl)
  | unknown_exception =>
      (endl +:+ endl +:+ rule +:+ endl) +:+
      ("Unknown exception!" +:+ endl +:+ "Aborting!" +:+ endl +:+ rule +:+ endl)
  end.

(** The two messages about a missing parameter file. *)
Definition no_arguments_message : string :=
  "You must provide an input file " +:+ dquote +:+ "-p <filename>" +:+
  dquote +:+ endl.

Definition no_filename_message : string :=
  "Error: flag '-p' must be followed by the name of a parameter file." +:+ endl.

(** An environment whose MPI destructor leaves a line on [std::cout], with
    a set-up and a 2D run that end as given. *)
Definition logging_env (setup_end run_end : Outcome ()) : Env := {|
  DEBUG := false;
  depth_console _ := mret ();
  set_thread_limit _ := mret ();
  MPI_InitFinalize _ _ := fun w => (setup_end, w);
  MPI_finalize w := {| cout := cout w +:+ "MPI_Finalize" +:+ endl;
                       cerr := cerr w |};
  MPI_Get_processor_name := "node";
  this_mpi_process := 0;
  n_mpi_processes := 1;
  n_cores := 1;
  n_threads := 1;
  Dimension _ := mret 2%Z;
  run_2d_problem _ := fun w => (run_end, w);
  run_3d_problem _ := mret ()
|}.

(** The message about a dimension that is neither 2 nor 3. *)
Definition bad_dimension_message : string :=
  "The dimension must be 2 or 3." +:+ endl.

End Main.












(** * Properties of the Q1 trace functions *)

Module BasisFunFacts.

Import BasisFun.

(** ** Loops over the slots of an output list *)

Section Loops.

Context {X Y : Type} `{Inhabited X}.

(** A loop [for p in k .. k+n-1] that updates slot [p] in place. *)
Lemma foldl_alter_seq (g : nat -> Y -> Y) (vs pre : list Y) :
foldl (fun values p => alter (g p) p values) (pre ++ vs)
      (seq (length pre) (length vs))
= pre ++ imap (fun i => g (length pre + i)%nat) vs.
Proof.
revert pre. induction vs as [|v vs IH]; intros pre; [reflexivity|].
cbn [length seq foldl].
rewrite alter_app_r_alt, Nat.sub_diag by reflexivity.
cbn [alter list_alter].
change (pre ++ g (length pre) v :: vs)
  with (pre ++ [g (length pre) v] ++ vs).
rewrite (app_assoc pre).
replace (S (length pre)) with (length (pre ++ [g (length pre) v]))
  by (rewrite length_app; simpl; lia).
rewrite IH, <- app_assoc, imap_cons, Nat.add_0_r. cbn [app].
do 2 f_equal. apply imap_ext. intros i x _. unfold compose.
f_equal. rewrite length_app. simpl. lia.
Qed.

Lemma imap_lookup_zip (f : X -> Y -> Y) (pts : list X) (vs : list Y) :
length pts = length vs ->
imap (fun i => f (pts !!! i)) vs = zip_with f pts vs.
Proof.
revert vs. induction pts as [|x pts IH]; intros [|v vs] Hlen;
  try discriminate; [reflexivity|].
rewrite imap_cons. cbn [zip_with]. f_equal.
apply IH. injection Hlen as Hlen. exact Hlen.
Qed.

Lemma zip_with_const_r {W : Type} (h : X -> W) (pts : list X) (vs : list Y) :
length pts = length vs ->
zip_with (fun pt _ => h pt) pts vs = map h pts.
Proof.
revert vs. induction pts as [|x pts IH]; intros [|v vs] Hlen;
  try discriminate; [reflexivity|].
cbn [zip_with map]. f_equal. apply IH. injection Hlen as Hlen. exact Hlen.
Qed.

End Loops.


(** ** What holds in every arithmetic *)

Section AnyArithmetic.

Context {A : Arithmetic}.

Local Open Scope arithmetic_scope.

Lemma point_matrix_2_rows cell : point_matrix_2 cell = vertex_monomials_2 cell.
Proof. reflexivity. Qed.

Lemma point_matrix_3_rows cell : point_matrix_3 cell = vertex_monomials_3 cell.
Proof. reflexivity. Qed.

Lemma entry_tabulate m n f i j :
  (i < m)%nat -> (j < n)%nat -> entry (tabulate m n f) i j = f i j.
Proof.
  intros Hi Hj. unfold entry, tabulate.
  rewrite (nth_indep _ [] ((fun i => map (f i) (seq 0 n)) 0%nat))
    by (rewrite length_map, length_seq; exact Hi).
  rewrite (map_nth (fun i => map (f i) (seq 0 n))), seq_nth by exact Hi.
  rewrite (nth_indep _ 0 (f (0 + i)%nat 0%nat))
    by (rewrite length_map, length_seq; exact Hj).
  rewrite (map_nth (f (0 + i)%nat)), seq_nth by exact Hj.
  reflexivity.
Qed.

Lemma entry_vertex_monomials_2 cell w k :
  (w < 4)%nat ->
  entry (vertex_monomials_2 cell) w k = nth k (monomials_2 (vertex cell w)) 0.
Proof.
  intros Hw. do 4 (destruct w as [|w]; [reflexivity|]). lia.
Qed.

Lemma entry_vertex_monomials_3 cell w k :
  (w < 8)%nat ->
  entry (vertex_monomials_3 cell) w k = nth k (monomials_3 (vertex cell w)) 0.
Proof.
  intros Hw. do 8 (destruct w as [|w]; [reflexivity|]). lia.
Qed.

(** Entry [(w, v)] of the equation [M * C = 1]. *)
Lemma product_entry n M C w v :
  (w < n)%nat -> (v < n)%nat ->
  mmul n M C = identity n ->
  sum_upto n (fun k => entry M w k * entry C k v) = kronecker w v.
Proof.
  intros Hw Hv H.
  apply (f_equal (fun X => entry X w v)) in H.
  unfold mmul, identity in H.
  rewrite !entry_tabulate in H by assumption. exact H.
Qed.

Lemma kronecker_sym v w : kronecker v w = kronecker w v.
Proof. unfold kronecker. rewrite Nat.eqb_sym. reflexivity. Qed.

Lemma sum_upto_ext n (f g : nat -> number) :
  (forall i, (i < n)%nat -> f i = g i) -> sum_upto n f = sum_upto n g.
Proof.
  intros Hfg. unfold sum_upto. f_equal. apply map_ext_in.
  intros i Hi. apply Hfg. apply in_seq in Hi. lia.
Qed.

Lemma vector_value_2_all b x (out : list number) :
  length out = 2%nat ->
  vector_value_2 b x out = replicate 2 (value_2 b x).
Proof.
  intros Hlen. destruct out as [|a [|c [|]]]; try discriminate. reflexivity.
Qed.

Lemma vector_value_3_all b x (out : list number) :
  length out = 3%nat ->
  vector_value_3 b x out = replicate 3 (value_3 b x).
Proof.
  intros Hlen. destruct out as [|a [|c [|d [|]]]]; try discriminate. reflexivity.
Qed.

Lemma length_vector_value_2 b x (out : list number) :
  length (vector_value_2 b x out) = length out.
Proof. cbv [vector_value_2 set_component]. rewrite !length_insert. reflexivity. Qed.

Lemma length_vector_value_3 b x (out : list number) :
  length (vector_value_3 b x out) = length out.
Proof. cbv [vector_value_3 set_component]. rewrite !length_insert. reflexivity. Qed.

(** One pass of the tensor loop writes the whole slot [p]. *)
Lemma tensor_step_2_slot b points (value_tmp : list number) values p :
  length value_tmp = 2%nat ->
  tensor_step_2 b points (value_tmp, values) p =
  (vector_value_2 b (points !!! p) (zero_vector 2),
   alter (fun _ => tensor_of_2 (vector_value_2 b (points !!! p) (zero_vector 2)))
         p values).
Proof.
  intros Hlen. unfold tensor_step_2. rewrite Hlen. f_equal.
  rewrite list_alter_alter_eq. apply list_alter_ext; [|reflexivity].
  intros t _. reflexivity.
Qed.

Lemma tensor_step_3_slot b points (value_tmp : list number) values p :
  length value_tmp = 3%nat ->
  tensor_step_3 b points (value_tmp, values) p =
  (vector_value_3 b (points !!! p) (zero_vector 3),
   alter (fun _ => tensor_of_3 (vector_value_3 b (points !!! p) (zero_vector 3)))
         p values).
Proof.
  intros Hlen. unfold tensor_step_3. rewrite Hlen. f_equal.
  rewrite !list_alter_alter_eq. apply list_alter_ext; [|reflexivity].
  intros t _. reflexivity.
Qed.

Lemma tensor_loop_2 b points l (st : list number * list Tensor1_2) :
  length st.1 = 2%nat ->
  (foldl (tensor_step_2 b points) st l).2 =
  foldl (fun values p =>
           alter (fun _ => tensor_of_2
                    (vector_value_2 b (points !!! p) (zero_vector 2))) p values)
        st.2 l.
Proof.
  revert st. induction l as [|p l IH]; intros [value_tmp values] Hlen;
    [reflexivity|].
  cbn [foldl fst snd] in *. rewrite tensor_step_2_slot by exact Hlen.
  rewrite IH; [reflexivity|]. cbn [fst]. apply length_vector_value_2.
Qed.

Lemma tensor_loop_3 b points l (st : list number * list Tensor1_3) :
  length st.1 = 3%nat ->
  (foldl (tensor_step_3 b points) st l).2 =
  foldl (fun values p =>
           alter (fun _ => tensor_of_3
                    (vector_value_3 b (points !!! p) (zero_vector 3))) p values)
        st.2 l.
Proof.
  revert st. induction l as [|p l IH]; intros [value_tmp values] Hlen;
    [reflexivity|].
  cbn [foldl fst snd] in *. rewrite tensor_step_3_slot by exact Hlen.
  rewrite IH; [reflexivity|]. cbn [fst]. apply length_vector_value_3.
Qed.

(** C8.  The copy constructor keeps the coefficient matrix and sets the
    active index to 0 whatever index was selected on the source; the copy
    evaluates trace 0, and [set_index] on the copy selects a trace as it
    does on the source. *)
Theorem copy_resets_index :
  (forall dim (b : BasisQ1 dim) i,
      coeff_matrix (copy (set_index b i)) = coeff_matrix b /\
      index_basis (copy (set_index b i)) = 0%nat /\
      forall j, set_index (copy (set_index b i)) j = set_index b j) /\
  (forall (b : BasisQ1 2) i p out,
      vector_value_2 (copy (set_index b i)) p out =
      vector_value_2 (set_index b 0) p out) /\
  (forall (b : BasisQ1 3) i p out,
      vector_value_3 (copy (set_index b i)) p out =
      vector_value_3 (set_index b 0) p out).
Proof.
  split; [|split].
  - intros dim b i. repeat split.
  - intros b i p out. reflexivity.
  - intros b i p out. reflexivity.
Qed.

(** C9.  On lists of equal length, [vector_value_list] returns and leaves
    in slot [p] what [vector_value] makes of the point [p] and the slot
    [p]; [tensor_value_list] returns and leaves in slot [p] the tensor of
    the components that [vector_value] writes for the point [p].  In 2D and
    in 3D. *)
Theorem value_lists_pointwise :
  (forall b points (values : list (list number)),
      length points = length values ->
      vector_value_list_2 b points values =
      Some (zip_with (vector_value_2 b) points values)) /\
  (forall b points (values : list (list number)),
      length points = length values ->
      vector_value_list_3 b points values =
      Some (zip_with (vector_value_3 b) points values)) /\
  (forall b points (values : list Tensor1_2),
      length points = length values ->
      tensor_value_list_2 b points values =
      Some (map (fun x => tensor_of_2 (vector_value_2 b x (zero_vector 2)))
                points)) /\
  (forall b points (values : list Tensor1_3),
      length points = length values ->
      tensor_value_list_3 b points values =
      Some (map (fun x => tensor_of_3 (vector_value_3 b x (zero_vector 3)))
                points)).
Proof.
  repeat split; intros b points values Hlen.
  - unfold vector_value_list_2. rewrite decide_True by exact Hlen. f_equal.
    rewrite Hlen.
    rewrite (foldl_alter_seq (fun p => vector_value_2 b (points !!! p)) values []).
    apply imap_lookup_zip, Hlen.
  - unfold vector_value_list_3. rewrite decide_True by exact Hlen. f_equal.
    rewrite Hlen.
    rewrite (foldl_alter_seq (fun p => vector_value_3 b (points !!! p)) values []).
    apply imap_lookup_zip, Hlen.
  - unfold tensor_value_list_2. rewrite decide_True by exact Hlen. f_equal.
    cbv zeta. rewrite tensor_loop_2 by reflexivity. cbn [snd]. rewrite Hlen.
    rewrite (foldl_alter_seq
               (fun p (_ : Tensor1_2) =>
                  tensor_of_2 (vector_value_2 b (points !!! p) (zero_vector 2)))
               values []).
    cbn [app length Nat.add].
    rewrite (imap_lookup_zip
               (fun x (_ : Tensor1_2) =>
                  tensor_of_2 (vector_value_2 b x (zero_vector 2))))
      by exact Hlen.
    apply zip_with_const_r, Hlen.
  - unfold tensor_value_list_3. rewrite decide_True by exact Hlen. f_equal.
    cbv zeta. rewrite tensor_loop_3 by reflexivity. cbn [snd]. rewrite Hlen.
    rewrite (foldl_alter_seq
               (fun p (_ : Tensor1_3) =>
                  tensor_of_3 (vector_value_3 b (points !!! p) (zero_vector 3)))
               values []).
    cbn [app length Nat.add].
    rewrite (imap_lookup_zip
               (fun x (_ : Tensor1_3) =>
                  tensor_of_3 (vector_value_3 b x (zero_vector 3))))
      by exact Hlen.
    apply zip_with_const_r, Hlen.
Qed.

Lemma vector_list_2_zip b points (values : list (list number)) :
  length points = length values ->
  vector_value_list_2 b points values =
  Some (zip_with (vector_value_2 b) points values).
Proof.
  intros Hlen. unfold vector_value_list_2. rewrite decide_True by exact Hlen.
  f_equal. rewrite Hlen.
  rewrite (foldl_alter_seq (fun p => vector_value_2 b (points !!! p)) values []).
  apply imap_lookup_zip, Hlen.
Qed.

Lemma vector_list_3_zip b points (values : list (list number)) :
  length points = length values ->
  vector_value_list_3 b points values =
  Some (zip_with (vector_value_3 b) points values).
Proof.
  intros Hlen. unfold vector_value_list_3. rewrite decide_True by exact Hlen.
  f_equal. rewrite Hlen.
  rewrite (foldl_alter_seq (fun p => vector_value_3 b (points !!! p)) values []).
  apply imap_lookup_zip, Hlen.
Qed.

Lemma tensor_list_2_map b points (values : list Tensor1_2) :
  length points = length values ->
  tensor_value_list_2 b points values =
  Some (map (fun x => tensor_of_2 (vector_value_2 b x (zero_vector 2))) points).
Proof.
  intros Hlen. unfold tensor_value_list_2. rewrite decide_True by exact Hlen.
  f_equal. cbv zeta. rewrite tensor_loop_2 by reflexivity. cbn [snd].
  rewrite Hlen.
  rewrite (foldl_alter_seq
             (fun p (_ : Tensor1_2) =>
                tensor_of_2 (vector_value_2 b (points !!! p) (zero_vector 2)))
             values []).
  cbn [app length Nat.add].
  rewrite (imap_lookup_zip
             (fun x (_ : Tensor1_2) =>
                tensor_of_2 (vector_value_2 b x (zero_vector 2))))
    by exact Hlen.
  apply zip_with_const_r, Hlen.
Qed.

Lemma tensor_list_3_map b points (values : list Tensor1_3) :
  length points = length values ->
  tensor_value_list_3 b points values =
  Some (map (fun x => tensor_of_3 (vector_value_3 b x (zero_vector 3))) points).
Proof.
  intros Hlen. unfold tensor_value_list_3. rewrite decide_True by exact Hlen.
  f_equal. cbv zeta. rewrite tensor_loop_3 by reflexivity. cbn [snd].
  rewrite Hlen.
  rewrite (foldl_alter_seq
             (fun p (_ : Tensor1_3) =>
                tensor_of_3 (vector_value_3 b (points !!! p) (zero_vector 3)))
             values []).
  cbn [app length Nat.add].
  rewrite (imap_lookup_zip
             (fun x (_ : Tensor1_3) =>
                tensor_of_3 (vector_value_3 b x (zero_vector 3))))
    by exact Hlen.
  apply zip_with_const_r, Hlen.
Qed.

(** X8.  On a vector with at least [dim] components [vector_value] keeps
    the size, writes the one scalar into each of the first [dim] components,
    and leaves every component from index [dim] on as it was.  In 2D and
    3D. *)
Theorem vector_value_touches_first_components :
  (forall b p (out : list number),
      (2 <= length out)%nat ->
      length (vector_value_2 b p out) = length out /\
      (forall i, (i < 2)%nat ->
                 vector_value_2 b p out !! i = Some (value_2 b p)) /\
      (forall i, (2 <= i)%nat -> vector_value_2 b p out !! i = out !! i)) /\
  (forall b p (out : list number),
      (3 <= length out)%nat ->
      length (vector_value_3 b p out) = length out /\
      (forall i, (i < 3)%nat ->
                 vector_value_3 b p out !! i = Some (value_3 b p)) /\
      (forall i, (3 <= i)%nat -> vector_value_3 b p out !! i = out !! i)).
Proof.
  split; intros b p out Hsize.
  - split; [apply length_vector_value_2|]. split.
    + intros i Hi. cbv [vector_value_2 set_component].
      destruct (decide (i = 1%nat)) as [->|Hne].
      * apply list_lookup_insert_eq. rewrite length_insert. lia.
      * rewrite list_lookup_insert_ne by auto.
        replace i with 0%nat by lia.
        apply list_lookup_insert_eq. lia.
    + intros i Hi. cbv [vector_value_2 set_component].
      rewrite !list_lookup_insert_ne by lia. reflexivity.
  - split; [apply length_vector_value_3|]. split.
    + intros i Hi. cbv [vector_value_3 set_component].
      destruct (decide (i = 2%nat)) as [->|Hne2].
      * apply list_lookup_insert_eq. rewrite !length_insert. lia.
      * rewrite list_lookup_insert_ne by auto.
        destruct (decide (i = 1%nat)) as [->|Hne1].
        -- apply list_lookup_insert_eq. rewrite length_insert. lia.
        -- rewrite list_lookup_insert_ne by auto.
           replace i with 0%nat by lia.
           apply list_lookup_insert_eq. lia.
    + intros i Hi. cbv [vector_value_3 set_component].
      rewrite !list_lookup_insert_ne by lia. reflexivity.
Qed.

Lemma tensor_of_vector_value_2 b x (v : list number) :
  (2 <= length v)%nat ->
  tensor_of_2 (vector_value_2 b x v) =
  tensor_of_2 (vector_value_2 b x (zero_vector 2)).
Proof.
  intros Hlen. destruct v as [|a [|c v]]; cbn [length] in Hlen; try lia.
  reflexivity.
Qed.

Lemma tensor_of_vector_value_3 b x (v : list number) :
  (3 <= length v)%nat ->
  tensor_of_3 (vector_value_3 b x v) =
  tensor_of_3 (vector_value_3 b x (zero_vector 3)).
Proof.
  intros Hlen. destruct v as [|a [|c [|d v]]]; cbn [length] in Hlen; try lia.
  reflexivity.
Qed.

(** X10.  The two batched forms agree: when every vector slot has at least
    [dim] components, the tensors that [tensor_value_list] returns are the
    first [dim] components of the vectors that [vector_value_list] returns
    for the same points, whatever the output lists held before.  In 2D and
    in 3D. *)
Theorem tensor_list_agrees_with_vector_list :
  (forall b points (vectors : list (list number)) (tensors : list Tensor1_2),
      length points = length vectors -> length points = length tensors ->
      Forall (fun v => (2 <= length v)%nat) vectors ->
      tensor_value_list_2 b points tensors =
      map tensor_of_2 <$> vector_value_list_2 b points vectors) /\
  (forall b points (vectors : list (list number)) (tensors : list Tensor1_3),
      length points = length vectors -> length points = length tensors ->
      Forall (fun v => (3 <= length v)%nat) vectors ->
      tensor_value_list_3 b points tensors =
      map tensor_of_3 <$> vector_value_list_3 b points vectors).
Proof.
  split; intros b points vectors tensors Hvec Hten Hsize.
  - rewrite tensor_list_2_map, vector_list_2_zip by assumption.
    cbn [fmap option_fmap option_map]. f_equal.
    clear Hten tensors. revert vectors Hvec Hsize.
    induction points as [|x points IH]; intros [|v vectors] Hvec Hsize;
      try discriminate Hvec; [reflexivity|].
    cbn [map zip_with]. inversion Hsize as [|? ? Hv Hrest]; subst.
    rewrite (tensor_of_vector_value_2 b x v Hv). f_equal.
    apply IH; [injection Hvec as Hvec; exact Hvec | exact Hrest].
  - rewrite tensor_list_3_map, vector_list_3_zip by assumption.
    cbn [fmap option_fmap option_map]. f_equal.
    clear Hten tensors. revert vectors Hvec Hsize.
    induction points as [|x points IH]; intros [|v vectors] Hvec Hsize;
      try discriminate Hvec; [reflexivity|].
    cbn [map zip_with]. inversion Hsize as [|? ? Hv Hrest]; subst.
    rewrite (tensor_of_vector_value_3 b x v Hv). f_equal.
    apply IH; [injection Hvec as Hvec; exact Hvec | exact Hrest].
Qed.

(** Two equal rows exclude a right inverse. *)
Lemma equal_rows_singular n (M : list (list number)) w1 w2 :
  (w1 < n)%nat -> (w2 < n)%nat -> w1 <> w2 ->
  (forall k, entry M w1 k = entry M w2 k) ->
  ~ invertible n M.
Proof.
  intros Hw1 Hw2 Hne Hrows (C & _ & Hright & _).
  pose proof (product_entry n M C w1 w1 Hw1 Hw1 Hright) as H1.
  pose proof (product_entry n M C w2 w1 Hw2 Hw1 Hright) as H2.
  rewrite (sum_upto_ext n _ (fun k => entry M w2 k * entry C k w1)) in H1
    by (intros k _; rewrite Hrows; reflexivity).
  rewrite H2 in H1. unfold kronecker in H1.
  rewrite Nat.eqb_refl, (proj2 (Nat.eqb_neq w2 w1)) in H1 by auto.
  apply one_neq_zero. symmetry. exact H1.
Qed.

(** X4.  A cell with two coinciding vertices has a point matrix without
    inverse, and a constructor whose [invert] returns nothing but inverses
    raises on it.  In 2D and in 3D. *)
Theorem coinciding_vertices_rejected :
  (forall invert cell w1 w2,
      (w1 < 4)%nat -> (w2 < 4)%nat -> w1 <> w2 ->
      vertex cell w1 = vertex cell w2 ->
      (forall C, invert (point_matrix_2 cell) = Some C ->
                 is_inverse 4 (point_matrix_2 cell) C) ->
      ~ invertible 4 (point_matrix_2 cell) /\ BasisQ1_2 invert cell = None) /\
  (forall invert cell w1 w2,
      (w1 < 8)%nat -> (w2 < 8)%nat -> w1 <> w2 ->
      vertex cell w1 = vertex cell w2 ->
      (forall C, invert (point_matrix_3 cell) = Some C ->
                 is_inverse 8 (point_matrix_3 cell) C) ->
      ~ invertible 8 (point_matrix_3 cell) /\ BasisQ1_3 invert cell = None).
Proof.
  split; intros invert cell w1 w2 Hw1 Hw2 Hne Hsame Hsound.
  - assert (Hsing : ~ invertible 4 (point_matrix_2 cell)).
    { apply (equal_rows_singular 4 _ w1 w2 Hw1 Hw2 Hne). intros k.
      rewrite point_matrix_2_rows, !entry_vertex_monomials_2, Hsame
        by assumption.
      reflexivity. }
    split; [exact Hsing|]. unfold BasisQ1_2.
    destruct (invert (point_matrix_2 cell)) as [C|] eqn:HC; [|reflexivity].
    exfalso. apply Hsing. exists C. apply Hsound. reflexivity.
  - assert (Hsing : ~ invertible 8 (point_matrix_3 cell)).
    { apply (equal_rows_singular 8 _ w1 w2 Hw1 Hw2 Hne). intros k.
      rewrite point_matrix_3_rows, !entry_vertex_monomials_3, Hsame
        by assumption.
      reflexivity. }
    split; [exact Hsing|]. unfold BasisQ1_3.
    destruct (invert (point_matrix_3 cell)) as [C|] eqn:HC; [|reflexivity].
    exfalso. apply Hsing. exists C. apply Hsound. reflexivity.
Qed.

End AnyArithmetic.

(** ** Instances of the above *)

#[local] Existing Instance exact.

Local Open Scope arithmetic_scope.

(** Closed statements about concrete matrices are settled by running the
    definitions. *)
Ltac by_computation :=
  unfold is_inverse, has_shape;
  apply (bool_decide_unpack _); vm_compute; exact I.

Ltac decide_closed := apply (bool_decide_unpack _); vm_compute; exact I.

(** In [exact] the operations are those of the field of rationals. *)
Ltac qc_ring := cbn [number zero one plus times exact]; ring.

(** Two doubles are different when a comparison tells them apart. *)
Ltac floats_differ test :=
  let H := fresh in
  intros H; apply (f_equal test) in H; vm_compute in H; discriminate H.

Lemma value_lists_pointwise_witness :
  vector_value_list_2 unit_square_basis [[0; 0]; [1; 0]] [[0; 0]; [0; 0]] =
  Some (zip_with (vector_value_2 unit_square_basis)
                 [[0; 0]; [1; 0]] [[0; 0]; [0; 0]]) /\
  vector_value_list_3 unit_cube_basis [[0; 0; 0]] [[0; 0; 0]] =
  Some (zip_with (vector_value_3 unit_cube_basis) [[0; 0; 0]] [[0; 0; 0]]) /\
  tensor_value_list_2 unit_square_basis [[0; 0]; [1; 0]] [(0, 0); (0, 0)] =
  Some (map (fun x => tensor_of_2
                        (vector_value_2 unit_square_basis x (zero_vector 2)))
            [[0; 0]; [1; 0]]) /\
  tensor_value_list_3 unit_cube_basis [[0; 0; 0]] [(0, 0, 0)] =
  Some (map (fun x => tensor_of_3
                        (vector_value_3 unit_cube_basis x (zero_vector 3)))
            [[0; 0; 0]]).
Proof.
  destruct value_lists_pointwise as (H1 & H2 & H3 & H4).
  split; [apply H1; reflexivity|].
  split; [apply H2; reflexivity|].
  split; [apply H3; reflexivity|].
  apply H4; reflexivity.
Defined.

Lemma vector_value_touches_first_components_witness :
  vector_value_2 unit_square_basis [0; 0] [0; 0; 1] !! 1%nat =
  Some (value_2 unit_square_basis [0; 0]) /\
  vector_value_2 unit_square_basis [0; 0] [0; 0; 1] !! 2%nat =
  [0; 0; 1] !! 2%nat /\
  vector_value_3 unit_cube_basis [0; 0; 0] [0; 0; 0; 1] !! 2%nat =
  Some (value_3 unit_cube_basis [0; 0; 0]) /\
  vector_value_3 unit_cube_basis [0; 0; 0] [0; 0; 0; 1] !! 3%nat =
  [0; 0; 0; 1] !! 3%nat.
Proof.
  destruct (vector_value_touches_first_components (A := exact)) as (H2 & H3).
  destruct (H2 unit_square_basis [0; 0] [0; 0; 1])
    as (_ & W2 & K2); [simpl; lia|].
  destruct (H3 unit_cube_basis [0; 0; 0] [0; 0; 0; 1])
    as (_ & W3 & K3); [simpl; lia|].
  split; [apply W2; lia|].
  split; [apply K2; lia|].
  split; [apply W3; lia|].
  apply K3; lia.
Defined.

Lemma tensor_list_agrees_with_vector_list_witness :
  tensor_value_list_2 unit_square_basis [[0; 0]; [1; 0]] [(1, 1); (1, 1)] =
  map tensor_of_2 <$>
    vector_value_list_2 unit_square_basis [[0; 0]; [1; 0]]
                        [[0; 0]; [0; 0; 1]] /\
  tensor_value_list_3 unit_cube_basis [[0; 0; 1]] [(1, 1, 1)] =
  map tensor_of_3 <$>
    vector_value_list_3 unit_cube_basis [[0; 0; 1]] [[0; 0; 0]].
Proof.
  split.
  - apply (proj1 tensor_list_agrees_with_vector_list);
      [reflexivity | reflexivity | repeat constructor].
  - apply (proj2 tensor_list_agrees_with_vector_list);
      [reflexivity | reflexivity | repeat constructor].
Defined.

Lemma coinciding_vertices_rejected_witness :
  (~ invertible 4 (point_matrix_2 collapsed_cell) /\
   BasisQ1_2 (gauss_jordan 4) collapsed_cell = None) /\
  (~ invertible 8 (point_matrix_3 collapsed_cell) /\
   BasisQ1_3 (gauss_jordan 8) collapsed_cell = None).
Proof.
  split.
  - apply (proj1 (coinciding_vertices_rejected (A := exact)) (gauss_jordan 4) collapsed_cell
             0%nat 1%nat); [lia | lia | lia | reflexivity |].
    intros C HC. vm_compute in HC. discriminate HC.
  - apply (proj2 (coinciding_vertices_rejected (A := exact)) (gauss_jordan 8) collapsed_cell
             0%nat 1%nat); [lia | lia | lia | reflexivity |].
    intros C HC. vm_compute in HC. discriminate HC.
Defined.

(** ** Exact arithmetic *)

(** ** Finite sums *)

Lemma sum_upto_S n f : sum_upto (S n) f = sum_upto n f + f n.
Proof.
  unfold sum_upto. rewrite seq_S, map_app, foldr_app. cbn [map foldr Nat.add].
  generalize (map f (seq 0 n)) as l. induction l as [|y l IH]; cbn [foldr].
  - qc_ring.
  - rewrite IH. qc_ring.
Qed.

Lemma sum_upto_scale n c f :
  sum_upto n (fun i => c * f i) = c * sum_upto n f.
Proof.
  induction n as [|n IH]; [unfold sum_upto; cbn [seq map foldr]; qc_ring|].
  rewrite !sum_upto_S, IH. qc_ring.
Qed.

Lemma sum_upto_scale_r n c f :
  sum_upto n (fun i => f i * c) = sum_upto n f * c.
Proof.
  induction n as [|n IH]; [unfold sum_upto; cbn [seq map foldr]; qc_ring|].
  rewrite !sum_upto_S, IH. qc_ring.
Qed.

Lemma sum_upto_plus n f g :
  sum_upto n (fun i => f i + g i) = sum_upto n f + sum_upto n g.
Proof.
  induction n as [|n IH]; [unfold sum_upto; cbn [seq map foldr]; qc_ring|].
  rewrite !sum_upto_S, IH. qc_ring.
Qed.

Lemma sum_upto_swap n m (f : nat -> nat -> number) :
  sum_upto n (fun i => sum_upto m (fun j => f i j)) =
  sum_upto m (fun j => sum_upto n (fun i => f i j)).
Proof.
  induction n as [|n IH].
  - symmetry. transitivity (sum_upto m (fun _ => 0 * 0)).
    + apply sum_upto_ext. intros j _. unfold sum_upto. cbn [seq map foldr]. qc_ring.
    + rewrite sum_upto_scale. unfold sum_upto at 2. cbn [seq map foldr]. qc_ring.
  - rewrite sum_upto_S, IH, <- sum_upto_plus.
    apply sum_upto_ext. intros j _. rewrite sum_upto_S. reflexivity.
Qed.

Lemma sum_upto_kronecker n j f :
  (j < n)%nat -> sum_upto n (fun k => f k * kronecker k j) = f j.
Proof.
  induction n as [|n IH]; intros Hj; [lia|].
  rewrite sum_upto_S. destruct (decide (j = n)) as [->|Hne].
  - unfold kronecker at 2. rewrite Nat.eqb_refl.
    transitivity (sum_upto n (fun _ => 0 * 0) + f n * 1).
    + f_equal. apply sum_upto_ext. intros i Hi. unfold kronecker.
      rewrite (proj2 (Nat.eqb_neq i n)) by lia. qc_ring.
    + rewrite sum_upto_scale. qc_ring.
  - rewrite IH by lia. unfold kronecker.
    rewrite (proj2 (Nat.eqb_neq n j)) by lia. qc_ring.
Qed.

(** If [C * M = 1], combining the columns of [C] with the values at the rows
    of [M] of a combination of the columns of [M] gives that combination. *)
Lemma left_inverse_reproduces n (M C : nat -> nat -> number)
    (a m : nat -> number) :
  (forall k j, (k < n)%nat -> (j < n)%nat ->
               sum_upto n (fun v => C k v * M v j) = kronecker k j) ->
  sum_upto n (fun v => sum_upto n (fun j => a j * M v j) *
                       sum_upto n (fun k => C k v * m k))
  = sum_upto n (fun j => a j * m j).
Proof.
  intros Hleft.
  transitivity
    (sum_upto n (fun v => sum_upto n (fun j => sum_upto n (fun k =>
       a j * m k * (C k v * M v j))))).
  { apply sum_upto_ext. intros v _.
    rewrite <- sum_upto_scale_r. apply sum_upto_ext. intros j _.
    rewrite <- sum_upto_scale. apply sum_upto_ext. intros k _.
    qc_ring. }
  rewrite sum_upto_swap. apply sum_upto_ext. intros j Hj.
  rewrite sum_upto_swap.
  transitivity (a j * sum_upto n (fun k => m k * kronecker k j)).
  - rewrite <- sum_upto_scale. apply sum_upto_ext. intros k Hk.
    rewrite sum_upto_scale, (Hleft k j Hk Hj). qc_ring.
  - rewrite sum_upto_kronecker by exact Hj. reflexivity.
Qed.

(** [vector_value] evaluates the polynomial of column [index_basis]. *)
Lemma value_2_polynomial b x :
  value_2 b x = trace_polynomial_2 (coeff_matrix b) (index_basis b) x.
Proof.
  unfold value_2, trace_polynomial_2, sum_upto.
  cbn [seq map foldr monomials_2 nth]. qc_ring.
Qed.

Lemma value_3_polynomial b x :
  value_3 b x = trace_polynomial_3 (coeff_matrix b) (index_basis b) x.
Proof.
  unfold value_3, trace_polynomial_3, sum_upto.
  cbn [seq map foldr monomials_3 nth]. qc_ring.
Qed.

Lemma trace_at_vertex_2 cell C v w :
  (v < 4)%nat -> (w < 4)%nat ->
  mmul 4 (vertex_monomials_2 cell) C = identity 4 ->
  trace_polynomial_2 C v (vertex cell w) = kronecker v w.
Proof.
  intros Hv Hw H. rewrite kronecker_sym, <- (product_entry 4 _ _ w v Hw Hv H).
  unfold trace_polynomial_2, sum_upto. cbn [seq map foldr].
  rewrite !entry_vertex_monomials_2 by exact Hw. qc_ring.
Qed.

Lemma trace_at_vertex_3 cell C v w :
  (v < 8)%nat -> (w < 8)%nat ->
  mmul 8 (vertex_monomials_3 cell) C = identity 8 ->
  trace_polynomial_3 C v (vertex cell w) = kronecker v w.
Proof.
  intros Hv Hw H. rewrite kronecker_sym, <- (product_entry 8 _ _ w v Hw Hv H).
  unfold trace_polynomial_3, sum_upto. cbn [seq map foldr].
  rewrite !entry_vertex_monomials_3 by exact Hw. qc_ring.
Qed.

(** ** The traces as an interpolation basis *)

Lemma reproduce_2 (b : BasisQ1 2) cell a x :
  mmul 4 (coeff_matrix b) (point_matrix_2 cell) = identity 4 ->
  interpolant_2 b cell (q1_polynomial_2 a) x = q1_polynomial_2 a x.
Proof.
  intros Hleft. unfold interpolant_2, q1_polynomial_2.
  rewrite <- (left_inverse_reproduces 4
                (entry (point_matrix_2 cell)) (entry (coeff_matrix b))
                (fun j => nth j a 0) (fun k => nth k (monomials_2 x) 0)).
  - apply sum_upto_ext. intros v Hv. f_equal.
    + apply sum_upto_ext. intros j _.
      rewrite point_matrix_2_rows, entry_vertex_monomials_2 by exact Hv.
      reflexivity.
    + apply value_2_polynomial.
  - intros k j Hk Hj. apply product_entry; assumption.
Qed.

Lemma reproduce_3 (b : BasisQ1 3) cell a x :
  mmul 8 (coeff_matrix b) (point_matrix_3 cell) = identity 8 ->
  interpolant_3 b cell (q1_polynomial_3 a) x = q1_polynomial_3 a x.
Proof.
  intros Hleft. unfold interpolant_3, q1_polynomial_3.
  rewrite <- (left_inverse_reproduces 8
                (entry (point_matrix_3 cell)) (entry (coeff_matrix b))
                (fun j => nth j a 0) (fun k => nth k (monomials_3 x) 0)).
  - apply sum_upto_ext. intros v Hv. f_equal.
    + apply sum_upto_ext. intros j _.
      rewrite point_matrix_3_rows, entry_vertex_monomials_3 by exact Hv.
      reflexivity.
    + apply value_3_polynomial.
  - intros k j Hk Hj. apply product_entry; assumption.
Qed.

(** A sum against the Kronecker delta picks one term. *)
Lemma interpolant_pick n v0 (f : nat -> number) :
  (v0 < n)%nat -> sum_upto n (fun v => kronecker v0 v * f v) = f v0.
Proof.
  intros Hv. rewrite <- (sum_upto_kronecker n v0 f Hv).
  apply sum_upto_ext. intros v _. rewrite (kronecker_sym v0 v). qc_ring.
Qed.

Lemma nodal_unique_2 (b : BasisQ1 2) cell a v0 x :
  mmul 4 (coeff_matrix b) (point_matrix_2 cell) = identity 4 ->
  (v0 < 4)%nat ->
  (forall w, (w < 4)%nat -> q1_polynomial_2 a (vertex cell w) = kronecker v0 w) ->
  value_2 (set_index b v0) x = q1_polynomial_2 a x.
Proof.
  intros Hleft Hv Hnodal. rewrite <- (reproduce_2 b cell a x Hleft).
  unfold interpolant_2.
  rewrite <- (interpolant_pick 4 v0 (fun v => value_2 (set_index b v) x) Hv).
  apply sum_upto_ext. intros w Hw. rewrite (Hnodal w Hw). reflexivity.
Qed.

Lemma nodal_unique_3 (b : BasisQ1 3) cell a v0 x :
  mmul 8 (coeff_matrix b) (point_matrix_3 cell) = identity 8 ->
  (v0 < 8)%nat ->
  (forall w, (w < 8)%nat -> q1_polynomial_3 a (vertex cell w) = kronecker v0 w) ->
  value_3 (set_index b v0) x = q1_polynomial_3 a x.
Proof.
  intros Hleft Hv Hnodal. rewrite <- (reproduce_3 b cell a x Hleft).
  unfold interpolant_3.
  rewrite <- (interpolant_pick 8 v0 (fun v => value_3 (set_index b v) x) Hv).
  apply sum_upto_ext. intros w Hw. rewrite (Hnodal w Hw). reflexivity.
Qed.

Lemma unit_square_inverse :
  is_inverse 4 (point_matrix_2 unit_square) (coeff_matrix unit_square_basis).
Proof. by_computation. Qed.

Lemma unit_cube_inverse :
  is_inverse 8 (point_matrix_3 unit_cube) (coeff_matrix unit_cube_basis).
Proof. by_computation. Qed.

(** ** The traces at the vertices *)

Lemma value_at_vertex_2 (b : BasisQ1 2) cell v w :
  mmul 4 (vertex_monomials_2 cell) (coeff_matrix b) = identity 4 ->
  (v < 4)%nat -> (w < 4)%nat ->
  value_2 (set_index b v) (vertex cell w) = kronecker v w.
Proof.
  intros Hright Hv Hw. rewrite value_2_polynomial.
  apply trace_at_vertex_2; assumption.
Qed.

Lemma value_at_vertex_3 (b : BasisQ1 3) cell v w :
  mmul 8 (vertex_monomials_3 cell) (coeff_matrix b) = identity 8 ->
  (v < 8)%nat -> (w < 8)%nat ->
  value_3 (set_index b v) (vertex cell w) = kronecker v w.
Proof.
  intros Hright Hv Hw. rewrite value_3_polynomial.
  apply trace_at_vertex_3; assumption.
Qed.

(** C1, as stated, fails on the program.  The rectangle [[0, 253] x [0, 1]]
    has an invertible vertex-monomial matrix, with the entries 1/253 and
    -1/253 in its inverse.  In binary64, with the double nearest to 1/253
    in their place, trace 1 at vertex 1 is below 1, and with the next double
    it is above 1: [vector_value] does not return the Kronecker delta.
    (Rounding is monotone, so a smaller double gives a value below 1 and a
    larger one a value above 1 as well.) *)
Lemma BasisQ1_rounding_counterexample :
  is_inverse (A := exact) 4
             (vertex_monomials_2
                (rectangle (A := exact) 0 (rational 253) 0 1))
             inverse_253_exact /\
  BasisQ1_2 (A := binary64) (fun _ => Some (inverse_253 nearest_253))
            (rectangle (A := binary64) 0 253 0 1)%float
  = Some (@mkBasisQ1 binary64 2 0 (inverse_253 nearest_253)) /\
  vector_value_2 (A := binary64)
                 (set_index (@mkBasisQ1 binary64 2 0 (inverse_253 nearest_253)) 1)
                 (vertex (rectangle (A := binary64) 0 253 0 1)%float 1) [0; 0]%float
  <> [kronecker 1 1; kronecker 1 1] /\
  PrimFloat.ltb
    (value_2 (A := binary64)
             (set_index (@mkBasisQ1 binary64 2 0 (inverse_253 nearest_253)) 1)
             (vertex (rectangle (A := binary64) 0 253 0 1)%float 1))
    1%float = true /\
  vector_value_2 (A := binary64)
                 (set_index (@mkBasisQ1 binary64 2 0 (inverse_253 above_253)) 1)
                 (vertex (rectangle (A := binary64) 0 253 0 1)%float 1) [0; 0]%float
  <> [kronecker 1 1; kronecker 1 1] /\
  PrimFloat.ltb
    1%float
    (value_2 (A := binary64)
             (set_index (@mkBasisQ1 binary64 2 0 (inverse_253 above_253)) 1)
             (vertex (rectangle (A := binary64) 0 253 0 1)%float 1))
  = true.
Proof.
  split; [by_computation|].
  split; [reflexivity|].
  split; [floats_differ (fun l : list float =>
                           PrimFloat.ltb (List.hd 0%float l) 1%float)|].
  split; [vm_compute; reflexivity|].
  split; [floats_differ (fun l : list float =>
                           PrimFloat.ltb 1%float (List.hd 0%float l))|].
  vm_compute. reflexivity.
Qed.

(** Values of the traces at the vertices of the unit cells, in binary64. *)

Lemma value_at_vertex_2_binary64 v w :
  (v < 4)%nat -> (w < 4)%nat ->
  value_2 (A := binary64) (set_index unit_square_basis_binary64 v)
          (vertex unit_square w) = kronecker v w.
Proof.
  intros Hv Hw.
  do 4 (destruct v as [|v];
        [do 4 (destruct w as [|w]; [vm_compute; reflexivity|]); lia|]).
  lia.
Qed.

Lemma value_at_vertex_3_binary64 v w :
  (v < 8)%nat -> (w < 8)%nat ->
  value_3 (A := binary64) (set_index unit_cube_basis_binary64 v)
          (vertex unit_cube w) = kronecker v w.
Proof.
  intros Hv Hw.
  do 8 (destruct v as [|v];
        [do 8 (destruct w as [|w]; [vm_compute; reflexivity|]); lia|]).
  lia.
Qed.

(** C1, amended.  In exact arithmetic, when [invert] returns for the
    vertex-monomial matrix of the cell (row [w]: the monomials at vertex
    [w]) a matrix [C] with [M * C = 1], the constructor returns an object
    with the coefficient matrix [C], and after [set_index v], [vector_value]
    at vertex [w] gives the Kronecker delta of [v] and [w] in every
    component.  In 2D (4 vertices) and in 3D (8 vertices).

    In binary64 the same holds without any rounding on the unit square and
    on the unit cube, where the inverse has the entries 0, 1 and -1: when
    [invert] returns it, the stored matrix is an inverse in binary64 and
    the traces at the vertices are exactly the Kronecker delta. *)
Theorem BasisQ1_vertex_values :
  (forall invert cell (C : list (list number)),
      invert (vertex_monomials_2 cell) = Some C ->
      mmul 4 (vertex_monomials_2 cell) C = identity 4 ->
      exists b,
        BasisQ1_2 (A := exact) invert cell = Some b /\
        coeff_matrix b = C /\
        forall v w (out : list number),
          (v < 4)%nat -> (w < 4)%nat -> length out = 2%nat ->
          vector_value_2 (A := exact) (set_index b v) (vertex cell w) out =
          [kronecker v w; kronecker v w]) /\
  (forall invert cell (C : list (list number)),
      invert (vertex_monomials_3 cell) = Some C ->
      mmul 8 (vertex_monomials_3 cell) C = identity 8 ->
      exists b,
        BasisQ1_3 (A := exact) invert cell = Some b /\
        coeff_matrix b = C /\
        forall v w (out : list number),
          (v < 8)%nat -> (w < 8)%nat -> length out = 3%nat ->
          vector_value_3 (A := exact) (set_index b v) (vertex cell w) out =
          [kronecker v w; kronecker v w; kronecker v w]) /\
  (forall invert,
      invert (vertex_monomials_2 (A := binary64) unit_square) =
      Some (coeff_matrix unit_square_basis_binary64) ->
      exists b,
        BasisQ1_2 (A := binary64) invert unit_square = Some b /\
        is_inverse (A := binary64) 4 (vertex_monomials_2 unit_square)
                   (coeff_matrix b) /\
        forall v w (out : list float),
          (v < 4)%nat -> (w < 4)%nat -> length out = 2%nat ->
          vector_value_2 (A := binary64) (set_index b v)
                         (vertex unit_square w) out =
          [kronecker v w; kronecker v w]) /\
  (forall invert,
      invert (vertex_monomials_3 (A := binary64) unit_cube) =
      Some (coeff_matrix unit_cube_basis_binary64) ->
      exists b,
        BasisQ1_3 (A := binary64) invert unit_cube = Some b /\
        is_inverse (A := binary64) 8 (vertex_monomials_3 unit_cube)
                   (coeff_matrix b) /\
        forall v w (out : list float),
          (v < 8)%nat -> (w < 8)%nat -> length out = 3%nat ->
          vector_value_3 (A := binary64) (set_index b v)
                         (vertex unit_cube w) out =
          [kronecker v w; kronecker v w; kronecker v w]).
Proof.
  split; [|split; [|split]].
  - intros invert cell C HC Hright.
    exists (mkBasisQ1 0 C). split; [|split].
    + unfold BasisQ1_2. rewrite point_matrix_2_rows, HC. reflexivity.
    + reflexivity.
    + intros v w out Hv Hw Hout.
      rewrite vector_value_2_all by exact Hout.
      rewrite (value_at_vertex_2 (mkBasisQ1 0 C) cell v w Hright Hv Hw).
      reflexivity.
  - intros invert cell C HC Hright.
    exists (mkBasisQ1 0 C). split; [|split].
    + unfold BasisQ1_3. rewrite point_matrix_3_rows, HC. reflexivity.
    + reflexivity.
    + intros v w out Hv Hw Hout.
      rewrite vector_value_3_all by exact Hout.
      rewrite (value_at_vertex_3 (mkBasisQ1 0 C) cell v w Hright Hv Hw).
      reflexivity.
  - intros invert HC.
    exists unit_square_basis_binary64. split; [|split].
    + unfold BasisQ1_2. rewrite point_matrix_2_rows, HC. reflexivity.
    + unfold is_inverse, has_shape. vm_compute. repeat constructor.
    + intros v w out Hv Hw Hout.
      rewrite vector_value_2_all by exact Hout.
      rewrite (value_at_vertex_2_binary64 v w Hv Hw). reflexivity.
  - intros invert HC.
    exists unit_cube_basis_binary64. split; [|split].
    + unfold BasisQ1_3. rewrite point_matrix_3_rows, HC. reflexivity.
    + unfold is_inverse, has_shape. vm_compute. repeat constructor.
    + intros v w out Hv Hw Hout.
      rewrite vector_value_3_all by exact Hout.
      rewrite (value_at_vertex_3_binary64 v w Hv Hw). reflexivity.
Qed.

Lemma BasisQ1_vertex_values_witness :
  (exists b,
      BasisQ1_2 (gauss_jordan 4) unit_square = Some b /\
      coeff_matrix b = coeff_matrix unit_square_basis /\
      vector_value_2 (set_index b 1) (vertex unit_square 1) [0; 0] = [1; 1] /\
      vector_value_2 (set_index b 1) (vertex unit_square 2) [0; 0] = [0; 0]) /\
  (exists b,
      BasisQ1_3 (gauss_jordan 8) unit_cube = Some b /\
      coeff_matrix b = coeff_matrix unit_cube_basis /\
      vector_value_3 (set_index b 5) (vertex unit_cube 5) [0; 0; 0] = [1; 1; 1] /\
      vector_value_3 (set_index b 5) (vertex unit_cube 6) [0; 0; 0] = [0; 0; 0]) /\
  (exists b,
      BasisQ1_2 (A := binary64)
                (fun _ => Some (coeff_matrix unit_square_basis_binary64))
                unit_square = Some b /\
      vector_value_2 (A := binary64) (set_index b 3) (vertex unit_square 3)
                     [0; 0]%float = [1; 1]%float /\
      vector_value_2 (A := binary64) (set_index b 3) (vertex unit_square 0)
                     [0; 0]%float = [0; 0]%float) /\
  (exists b,
      BasisQ1_3 (A := binary64)
                (fun _ => Some (coeff_matrix unit_cube_basis_binary64))
                unit_cube = Some b /\
      vector_value_3 (A := binary64) (set_index b 7) (vertex unit_cube 7)
                     [0; 0; 0]%float = [1; 1; 1]%float /\
      vector_value_3 (A := binary64) (set_index b 7) (vertex unit_cube 2)
                     [0; 0; 0]%float = [0; 0; 0]%float).
Proof.
  destruct BasisQ1_vertex_values as (E2 & E3 & F2 & F3).
  split; [|split; [|split]].
  - destruct (E2 (gauss_jordan 4) unit_square (coeff_matrix unit_square_basis))
      as (b & Hb & HC & Hval); [vm_compute; reflexivity | decide_closed |].
    exists b. split; [exact Hb|]. split; [exact HC|]. split.
    + apply (Hval 1%nat 1%nat [0; 0]); [lia | lia | reflexivity].
    + apply (Hval 1%nat 2%nat [0; 0]); [lia | lia | reflexivity].
  - destruct (E3 (gauss_jordan 8) unit_cube (coeff_matrix unit_cube_basis))
      as (b & Hb & HC & Hval); [vm_compute; reflexivity | decide_closed |].
    exists b. split; [exact Hb|]. split; [exact HC|]. split.
    + apply (Hval 5%nat 5%nat [0; 0; 0]); [lia | lia | reflexivity].
    + apply (Hval 5%nat 6%nat [0; 0; 0]); [lia | lia | reflexivity].
  - destruct (F2 (fun _ => Some (coeff_matrix unit_square_basis_binary64)))
      as (b & Hb & _ & Hval); [reflexivity|].
    exists b. split; [exact Hb|]. split.
    + apply (Hval 3%nat 3%nat [0; 0]%float); [lia | lia | reflexivity].
    + apply (Hval 3%nat 0%nat [0; 0]%float); [lia | lia | reflexivity].
  - destruct (F3 (fun _ => Some (coeff_matrix unit_cube_basis_binary64)))
      as (b & Hb & _ & Hval); [reflexivity|].
    exists b. split; [exact Hb|]. split.
    + apply (Hval 7%nat 7%nat [0; 0; 0]%float); [lia | lia | reflexivity].
    + apply (Hval 7%nat 2%nat [0; 0; 0]%float); [lia | lia | reflexivity].
Defined.

(** ** The trace of a degree of freedom *)

(** C2, as stated, fails on the program.  In binary64, on the unit square
    (the inverse of its point matrix has the entries 0, 1 and -1), for DoF
    [k = 0] and at the vertex [(0, 0)], [vector_value] gives [1] in both
    components, while the datum of the specification has [0] in component
    1.  Away from the vertices the value carries the rounding of binary64:
    at [(2^-60, 1)] the nodal polynomial of vertex 0, which is
    [1 - x - y + x y], is zero, and [vector_value] gives [2^-60]. *)
Lemma dof_trace_counterexample :
  is_inverse (A := exact) 4 (vertex_monomials_2 unit_square)
             [[1; 0; 0; 0]; [rational (-1); 1; 0; 0];
              [rational (-1); 0; 1; 0]; [1; rational (-1); rational (-1); 1]] /\
  vector_value_2 (A := binary64) (set_index unit_square_basis_binary64 (0 / 2))
                 (vertex unit_square 0) (zero_vector 2) = [1; 1]%float /\
  dof_trace (A := binary64) 2
            (trace_polynomial_2 (coeff_matrix unit_square_basis_binary64)) 0
            (vertex unit_square 0) = [1; 0]%float /\
  vector_value_2 (A := binary64) (set_index unit_square_basis_binary64 (0 / 2))
                 (vertex unit_square 0) (zero_vector 2)
  <> dof_trace (A := binary64) 2
               (trace_polynomial_2 (coeff_matrix unit_square_basis_binary64)) 0
               (vertex unit_square 0) /\
  (forall w, (w < 4)%nat ->
             q1_polynomial_2 (A := exact)
                             [1; rational (-1); rational (-1); 1]
                             (vertex unit_square w) = kronecker 0 w) /\
  q1_polynomial_2 (A := exact) [1; rational (-1); rational (-1); 1]
                  [rational (1 # 1152921504606846976); 1] = 0 /\
  vector_value_2 (A := binary64) (set_index unit_square_basis_binary64 (0 / 2))
                 [0x1p-60; 1]%float (zero_vector 2)
  = [0x1p-60; 0x1p-60]%float /\
  vector_value_2 (A := binary64) (set_index unit_square_basis_binary64 (0 / 2))
                 [0x1p-60; 1]%float (zero_vector 2)
  <> [0; 0]%float.
Proof.
  split; [by_computation|].
  split; [vm_compute; reflexivity|].
  split; [vm_compute; reflexivity|].
  split; [floats_differ (fun l : list float =>
                           PrimFloat.ltb 0%float (List.nth 1 l 0%float))|].
  split; [intros w Hw;
          do 4 (destruct w as [|w]; [decide_closed|]); lia|].
  split; [decide_closed|].
  split; [vm_compute; reflexivity|].
  floats_differ (fun l : list float =>
                   PrimFloat.ltb 0%float (List.hd 0%float l)).
Qed.

(** C2, amended.  In exact arithmetic and with the inverse of the
    vertex-monomial matrix as coefficient matrix, for each local coarse DoF
    [k], after [set_index (k / dim)] the function [vector_value] evaluates at
    every point [x] to [T (k / dim)] at [x] in every one of the [dim]
    components, component [k mod dim] included and the others not zero,
    where [T v] is the scalar Q1 nodal basis at local vertex [v]: the Q1
    polynomial with the value 1 at vertex [v] and 0 at the other vertices.
    In 2D and in 3D. *)
Theorem vector_value_every_component :
  (forall (b : BasisQ1 2) cell a k x (out : list number),
      is_inverse 4 (vertex_monomials_2 cell) (coeff_matrix b) ->
      (k < 2 * 4)%nat ->
      (forall w, (w < 4)%nat ->
                 q1_polynomial_2 a (vertex cell w) = kronecker (k / 2) w) ->
      length out = 2%nat ->
      vector_value_2 (A := exact) (set_index b (k / 2)) x out =
      replicate 2 (q1_polynomial_2 a x)) /\
  (forall (b : BasisQ1 3) cell a k x (out : list number),
      is_inverse 8 (vertex_monomials_3 cell) (coeff_matrix b) ->
      (k < 3 * 8)%nat ->
      (forall w, (w < 8)%nat ->
                 q1_polynomial_3 a (vertex cell w) = kronecker (k / 3) w) ->
      length out = 3%nat ->
      vector_value_3 (A := exact) (set_index b (k / 3)) x out =
      replicate 3 (q1_polynomial_3 a x)).
Proof.
  split; intros b cell a k x out (_ & _ & Hleft) Hk Hnodal Hout.
  - rewrite vector_value_2_all by exact Hout. f_equal.
    apply (nodal_unique_2 b cell a (k / 2) x Hleft); [|exact Hnodal].
    apply Nat.Div0.div_lt_upper_bound. lia.
  - rewrite vector_value_3_all by exact Hout. f_equal.
    apply (nodal_unique_3 b cell a (k / 3) x Hleft); [|exact Hnodal].
    apply Nat.Div0.div_lt_upper_bound. lia.
Qed.

Lemma vector_value_every_component_witness :
  vector_value_2 (set_index unit_square_basis (1 / 2))
                 [rational (1 # 2); rational (1 # 3)] [0; 0]
  = replicate 2 (q1_polynomial_2 [1; rational (-1); rational (-1); 1]
                                 [rational (1 # 2); rational (1 # 3)]) /\
  q1_polynomial_2 [1; rational (-1); rational (-1); 1]
                  [rational (1 # 2); rational (1 # 3)] = rational (1 # 3) /\
  vector_value_3 (set_index unit_cube_basis (7 / 3))
                 [rational (1 # 2); rational (1 # 3); rational (1 # 5)]
                 [0; 0; 0]
  = replicate 3 (q1_polynomial_3
                   [0; 0; 1; 0; rational (-1); rational (-1); 0; 1]
                   [rational (1 # 2); rational (1 # 3); rational (1 # 5)]) /\
  q1_polynomial_3 [0; 0; 1; 0; rational (-1); rational (-1); 0; 1]
                  [rational (1 # 2); rational (1 # 3); rational (1 # 5)]
  = rational (2 # 15).
Proof.
  split; [|split; [decide_closed|split; [|decide_closed]]].
  - apply (proj1 vector_value_every_component unit_square_basis unit_square);
      [exact unit_square_inverse | lia | | reflexivity].
    intros w Hw. do 4 (destruct w as [|w]; [decide_closed|]). lia.
  - apply (proj2 vector_value_every_component unit_cube_basis unit_cube);
      [exact unit_cube_inverse | lia | | reflexivity].
    intros w Hw. do 8 (destruct w as [|w]; [decide_closed|]). lia.
Defined.

End BasisFunFacts.

(** * Properties of the body force *)

Module ElasticityFacts.

Import Elasticity.
Local Open Scope Qc_scope.

(** C3.  For every mass density [rho] the constructor stores the force
    density [9.81 * rho], and at every point the body force is the vector
    with [-(9.81 * rho)] in the last component and zero in the others, in 2D
    and in 3D; it is the same at any two points, and the batched evaluation
    repeats it. *)
Theorem body_force_constant (rho : double) :
  force_value (new_BodyForce 2 rho) = Q2Qc (981 # 100) * rho /\
  force_value (new_BodyForce 3 rho) = Q2Qc (981 # 100) * rho /\
  (forall p,
      vector_value (new_BodyForce 2 rho) p = [0; - (Q2Qc (981 # 100) * rho)]) /\
  (forall p,
      vector_value (new_BodyForce 3 rho) p =
      [0; 0; - (Q2Qc (981 # 100) * rho)]) /\
  (forall dim p q,
      vector_value (new_BodyForce dim rho) p =
      vector_value (new_BodyForce dim rho) q) /\
  (forall dim points,
      vector_value_list (new_BodyForce dim rho) points =
      map (fun _ => vector_value (new_BodyForce dim rho) []) points).
Proof.
  repeat split.
Qed.

End ElasticityFacts.

(** * Properties of [main] *)

Module MainFacts.

Import Main.
Local Open Scope string_scope.

Lemma append_assoc (a b c : string) : (a +:+ b) +:+ c = a +:+ (b +:+ c).
Proof.
  induction a as [|ch a IH]; [reflexivity|].
  change (String ch ((a +:+ b) +:+ c) = String ch (a +:+ (b +:+ c))).
  rewrite IH. reflexivity.
Qed.

Lemma pairs_cons file files : pairs (file :: files) = "-p" :: file :: pairs files.
Proof. reflexivity. Qed.

Lemma length_pairs files : length (pairs files) = (2 * length files)%nat.
Proof.
  induction files as [|file files IH]; [reflexivity|].
  rewrite pairs_cons. cbn [length]. lia.
Qed.

(** The loop runs through a prefix of well-formed pairs and keeps the last
    filename. *)
Lemma parse_args_pairs files rest input_file :
  parse_args (pairs files ++ rest) input_file =
  parse_args rest (default input_file (last files)).
Proof.
  revert input_file. induction files as [|file files IH]; intros input_file;
    [reflexivity|].
  rewrite pairs_cons. cbn [app parse_args String.eqb Ascii.eqb Bool.eqb].
  rewrite IH, last_cons. destruct (last files); reflexivity.
Qed.

Lemma main_parses env prog args w :
  args <> [] ->
  main env (prog :: args) w =
  (input_file ← parse_args args EmptyString;
   try_catch (try_block env (prog :: args) input_file;; mret 0%Z) handler) w.
Proof.
  intros Hargs. unfold main. destruct args as [|a args]; [congruence|].
  reflexivity.
Qed.

Lemma handler_banner e w :
  handler e w = (Normal 1%Z, {| cout := cout w; cerr := cerr w +:+ banner e |}).
Proof.
  destruct e as [what|]; cbv [handler mbind M_bind mret M_ret to_cerr banner];
    cbn [cout cerr]; rewrite append_assoc; reflexivity.
Qed.

Lemma hello_normal env w : hello env w = (Normal (), (hello env w).2).
Proof. reflexivity. Qed.

Lemma main_after_parse env argv input_file w w1 :
  (2 <= length argv)%nat ->
  parse_args (drop 1 argv) EmptyString w = (Normal input_file, w1) ->
  main env argv w =
  try_catch (try_block env argv input_file;; mret 0%Z) handler w1.
Proof.
  intros Hargc Hparse. unfold main.
  rewrite (proj2 (Nat.ltb_ge _ _) Hargc).
  cbv [mbind M_bind]. rewrite Hparse. reflexivity.
Qed.

(** C5.  Without any argument, and with a command line that ends in a
    [-p] that has no filename after it, [main] writes a message and ends
    the process with [exit(1)].  This holds in every environment, and the
    streams hold nothing but that message in addition: no part of the
    [try] block has run. *)
Theorem missing_parameter_file env w :
  (forall argv,
      (length argv < 2)%nat ->
      main env argv w =
      (Exited 1, {| cout := cout w +:+ no_arguments_message; cerr := cerr w |}))
  /\
  (forall prog files,
      main env (prog :: pairs files ++ ["-p"]) w =
      (Exited 1, {| cout := cout w; cerr := cerr w +:+ no_filename_message |})).
Proof.
  split.
  - intros argv Hargc. unfold main.
    rewrite (proj2 (Nat.ltb_lt _ _) Hargc). reflexivity.
  - intros prog files. rewrite main_parses by (destruct files; discriminate).
    cbv [mbind M_bind]. rewrite parse_args_pairs. reflexivity.
Qed.

Lemma missing_parameter_file_witness :
  main (quiet_env 2) ["elasticity"] start =
  (Exited 1, {| cout := no_arguments_message; cerr := EmptyString |}) /\
  main (quiet_env 2) ["elasticity"; "-p"; "a.prm"; "-p"] start =
  (Exited 1, {| cout := EmptyString; cerr := no_filename_message |}).
Proof.
  split.
  - apply (proj1 (missing_parameter_file (quiet_env 2) start) ["elasticity"]).
    simpl. lia.
  - apply (proj2 (missing_parameter_file (quiet_env 2) start)
             "elasticity" ["a.prm"]).
Defined.

(** C6.  When, after any number of [-p <filename>] pairs, the next
    argument is not [-p], [main] reports it on [std::cerr] as an unknown
    command line option and ends the process with [exit(1)]. *)
Theorem unknown_option env prog files a rest w :
  a <> "-p" ->
  main env (prog :: pairs files ++ a :: rest) w =
  (Exited 1,
   {| cout := cout w;
      cerr := cerr w +:+ ("Unknown command line option: " +:+ a +:+ endl) |}).
Proof.
  intros Ha. rewrite main_parses by (destruct files; discriminate).
  cbv [mbind M_bind]. rewrite parse_args_pairs. cbn [parse_args].
  rewrite (proj2 (String.eqb_neq a "-p") Ha). reflexivity.
Qed.

Lemma unknown_option_witness :
  main (quiet_env 2) ["elasticity"; "-p"; "a.prm"; "--fast"; "-p"] start =
  (Exited 1,
   {| cout := EmptyString;
      cerr := "Unknown command line option: --fast" +:+ endl |}).
Proof.
  apply (unknown_option (quiet_env 2) "elasticity" ["a.prm"] "--fast" ["-p"]).
  discriminate.
Defined.

(** C7.  Once the arguments are parsed: if the [try] block ends with an
    exception, of either kind, [main] appends the banner to [std::cerr] and
    returns 1; if the [try] block ends normally, [main] returns 0; and the
    [try] block does end normally, with the destructor of
    [mpi_initialization] run, when the set-up returns, the dimension read is
    2 or 3 and the problem of that dimension returns. *)
Theorem exceptions_and_success env argv input_file w w1 :
  (2 <= length argv)%nat ->
  parse_args (drop 1 argv) EmptyString w = (Normal input_file, w1) ->
  (forall e w2,
      try_block env argv input_file w1 = (Thrown e, w2) ->
      main env argv w =
      (Normal 1%Z, {| cout := cout w2; cerr := cerr w2 +:+ banner e |})) /\
  (forall w2,
      try_block env argv input_file w1 = (Normal (), w2) ->
      main env argv w = (Normal 0%Z, w2)) /\
  (forall w2 w3 w4 dim,
      setup env argv w1 = (Normal (), w2) ->
      Dimension env input_file (hello env w2).2 = (Normal dim, w3) ->
      dim = 2%Z \/ dim = 3%Z ->
      (if (dim =? 2)%Z then run_2d_problem env input_file
       else run_3d_problem env input_file) w3 = (Normal (), w4) ->
      main env argv w = (Normal 0%Z, MPI_finalize env w4)).
Proof.
  intros Hargc Hparse.
  rewrite (main_after_parse env argv input_file w w1 Hargc Hparse).
  assert (Hnormal : forall w2,
             try_block env argv input_file w1 = (Normal (), w2) ->
             try_catch (try_block env argv input_file;; mret 0%Z) handler w1 =
             (Normal 0%Z, w2)).
  { intros w2 Htry. unfold try_catch. cbv [mbind M_bind]. rewrite Htry.
    reflexivity. }
  split; [|split].
  - intros e w2 Htry. unfold try_catch. cbv [mbind M_bind]. rewrite Htry.
    apply handler_banner.
  - exact Hnormal.
  - intros w2 w3 w4 dim Hsetup Hdim Hdim23 Hrun. apply Hnormal.
    unfold try_block. cbv [mbind M_bind]. rewrite Hsetup.
    unfold with_destructor, run, say_hello_from_cluster.
    cbv [mbind M_bind]. rewrite hello_normal, Hdim.
    destruct Hdim23 as [-> | ->]; cbn [Z.eqb Pos.eqb] in *; rewrite Hrun;
      reflexivity.
Qed.

Lemma exceptions_and_success_witness :
  main (throwing_env (std_exception "no such file"))
       ["elasticity"; "-p"; "a.prm"] start =
  (Normal 1%Z,
   {| cout := cout (hello (quiet_env 2) start).2;
      cerr := banner (std_exception "no such file") |}) /\
  main (quiet_env 3) ["elasticity"; "-p"; "a.prm"] start =
  (Normal 0%Z, (hello (quiet_env 3) start).2) /\
  main (quiet_env 2) ["elasticity"; "-p"; "a.prm"] start =
  (Normal 0%Z, (hello (quiet_env 2) start).2).
Proof.
  split; [|split].
  - apply (proj1 (exceptions_and_success
                    (throwing_env (std_exception "no such file"))
                    ["elasticity"; "-p"; "a.prm"] "a.prm" start start
                    ltac:(simpl; lia) eq_refl)
             (std_exception "no such file")
             (hello (quiet_env 2) start).2).
    reflexivity.
  - apply (proj1 (proj2 (exceptions_and_success
                    (quiet_env 3) ["elasticity"; "-p"; "a.prm"] "a.prm"
                    start start ltac:(simpl; lia) eq_refl))).
    reflexivity.
  - apply (proj2 (proj2 (exceptions_and_success
                    (quiet_env 2) ["elasticity"; "-p"; "a.prm"] "a.prm"
                    start start ltac:(simpl; lia) eq_refl))
             start (hello (quiet_env 2) start).2
             (hello (quiet_env 2) start).2 2%Z);
      [reflexivity | reflexivity | left; reflexivity | reflexivity].
Defined.

(** C10.  On a command line made of one or more [-p <filename>] pairs the
    loop returns, having written nothing, with the filename of the last
    pair, and [main] enters the [try] block with that filename; the earlier
    filenames are dropped without a message. *)
Theorem last_pair_wins env prog files file w :
  last files = Some file ->
  parse_args (pairs files) EmptyString w = (Normal file, w) /\
  main env (prog :: pairs files) w =
  try_catch (try_block env (prog :: pairs files) file;; mret 0%Z) handler w.
Proof.
  intros Hlast.
  assert (Hparse : parse_args (pairs files) EmptyString w = (Normal file, w)).
  { rewrite <- (app_nil_r (pairs files)), parse_args_pairs, Hlast.
    reflexivity. }
  split; [exact Hparse|].
  apply main_after_parse; [|exact Hparse].
  cbn [length]. rewrite length_pairs. destruct files; [discriminate|].
  cbn [length]. lia.
Qed.

Lemma last_pair_wins_witness :
  parse_args (pairs ["a.prm"; "b.prm"]) EmptyString start = (Normal "b.prm", start) /\
  main (quiet_env 2) ("elasticity" :: pairs ["a.prm"; "b.prm"]) start =
  try_catch (try_block (quiet_env 2) ("elasticity" :: pairs ["a.prm"; "b.prm"])
                       "b.prm";; mret 0%Z) handler start.
Proof.
  apply (last_pair_wins (quiet_env 2) "elasticity" ["a.prm"; "b.prm"] "b.prm").
  reflexivity.
Defined.

(** ** The argument loop on every command line *)

Lemma pairs_induction (P : list string -> Prop) :
  P [] -> (forall a, P [a]) -> (forall a b l, P l -> P (a :: b :: l)) ->
  forall l, P l.
Proof.
  intros Hnil Hone Hstep.
  assert (H : forall l, P l /\ forall a, P (a :: l)).
  { induction l as [|b l [IH1 IH2]]; split; auto. }
  intros l. apply H.
Qed.

Lemma pairs_head a rest files : a :: rest = pairs files -> a = "-p".
Proof.
  destruct files as [|file files]; [discriminate|].
  rewrite pairs_cons. intros [= -> _]. reflexivity.
Qed.

Lemma pairs_tail a b l files :
  a :: b :: l = pairs files -> exists files', l = pairs files'.
Proof.
  destruct files as [|file files]; [discriminate|].
  rewrite pairs_cons. intros [= _ _ ->]. exists files. reflexivity.
Qed.

Lemma singleton_not_pairs a files : [a] <> pairs files.
Proof.
  intros H. apply (f_equal length) in H. rewrite length_pairs in H.
  cbn [length] in H. lia.
Qed.

(** What the loop does with any list of arguments. *)
Lemma parse_args_cases args input_file w :
  (exists files,
      args = pairs files /\
      parse_args args input_file w =
      (Normal (default input_file (last files)), w)) \/
  ((~ exists files, args = pairs files) /\
   exists msg,
     parse_args args input_file w =
     (Exited 1, {| cout := cout w; cerr := cerr w +:+ msg |})).
Proof.
  revert input_file.
  induction args as [|a|a b l IH] using pairs_induction; intros input_file.
  - left. exists []. split; reflexivity.
  - right. split; [intros [files H]; exact (singleton_not_pairs a files H)|].
    cbn [parse_args]. destruct (String.eqb a "-p"); eexists; reflexivity.
  - cbn [parse_args]. destruct (String.eqb a "-p") eqn:Ha.
    + apply String.eqb_eq in Ha. subst a.
      destruct (IH b) as [(files & -> & Hparse) | (Hnot & msg & Hparse)].
      * left. exists (b :: files). split; [reflexivity|].
        rewrite Hparse, last_cons. destruct (last files); reflexivity.
      * right. split; [|exists msg; exact Hparse].
        intros [files H]. apply Hnot. exact (pairs_tail _ _ _ _ H).
    + right. split; [|eexists; reflexivity].
      intros [files H]. apply pairs_head in H. subst a.
      rewrite String.eqb_refl in Ha. discriminate Ha.
Qed.

(** X11.  For every list of arguments the loop either returns the filename
    of the last pair, having written nothing, which happens exactly when the
    list is a sequence of [-p <filename>] pairs, or it ends the process with
    status 1 after adding one message to [std::cerr] and nothing to
    [std::cout]; it never throws. *)
Theorem parse_args_outcome args input_file w :
  (exists files,
      args = pairs files /\
      parse_args args input_file w =
      (Normal (default input_file (last files)), w)) \/
  ((~ exists files, args = pairs files) /\
   exists msg,
     parse_args args input_file w =
     (Exited 1, {| cout := cout w; cerr := cerr w +:+ msg |})).
Proof. apply parse_args_cases. Qed.

(** X12.  In every environment and on every command line, no exception
    leaves [main], and when [main] returns, the value is 0 or 1. *)
Theorem main_contains_exceptions env argv w :
  match (main env argv w).1 with
  | Thrown _ => False
  | Normal code => code = 0%Z \/ code = 1%Z
  | Exited _ => True
  end.
Proof.
  unfold main. destruct (length argv <? 2)%nat; [exact I|].
  cbv [mbind M_bind]. fold (@mbind M _).
  destruct (parse_args_cases (drop 1 argv) EmptyString w)
    as [(files & _ & ->) | (_ & msg & ->)]; [|exact I].
  unfold try_catch. cbv [mbind M_bind].
  destruct (try_block env argv _ w) as [[[]|e|code] w'].
  - left. reflexivity.
  - rewrite handler_banner. right. reflexivity.
  - exact I.
Qed.

(** X13.  When the parameter file gives a dimension other than 2 and 3,
    [main] writes the message about the dimension to [std::cout] and ends
    the process with [exit(1)]: neither problem is run, no banner is
    written, and the destructor of [mpi_initialization] does not run. *)
Theorem bad_dimension_exits env argv input_file w w1 w2 w3 dim :
  (2 <= length argv)%nat ->
  parse_args (drop 1 argv) EmptyString w = (Normal input_file, w1) ->
  setup env argv w1 = (Normal (), w2) ->
  Dimension env input_file (hello env w2).2 = (Normal dim, w3) ->
  dim <> 2%Z -> dim <> 3%Z ->
  main env argv w =
  (Exited 1, {| cout := cout w3 +:+ bad_dimension_message; cerr := cerr w3 |}).
Proof.
  intros Hargc Hparse Hsetup Hdim H2 H3.
  rewrite (main_after_parse env argv input_file w w1 Hargc Hparse).
  unfold try_catch, try_block. cbv [mbind M_bind]. rewrite Hsetup.
  unfold with_destructor, run, say_hello_from_cluster.
  cbv [mbind M_bind]. rewrite hello_normal, Hdim.
  rewrite (proj2 (Z.eqb_neq dim 2) H2), (proj2 (Z.eqb_neq dim 3) H3).
  reflexivity.
Qed.

Lemma bad_dimension_exits_witness :
  main (quiet_env 4) ["elasticity"; "-p"; "a.prm"] start =
  (Exited 1,
   {| cout := cout (hello (quiet_env 4) start).2 +:+ bad_dimension_message;
      cerr := EmptyString |}).
Proof.
  apply (bad_dimension_exits (quiet_env 4) ["elasticity"; "-p"; "a.prm"]
           "a.prm" start start start (hello (quiet_env 4) start).2 4%Z);
    [simpl; lia | reflexivity | reflexivity | reflexivity
    | discriminate | discriminate].
Defined.

(** X14.  Once the arguments are parsed: an exception thrown while
    [mpi_initialization] is set up is reported without its destructor
    having run; an exception thrown later is reported after the destructor
    has run; and a call of [exit] in the run ends the process with that
    status, with neither the destructor run nor a banner written. *)
Theorem unwinding_order env argv input_file w w1 :
  (2 <= length argv)%nat ->
  parse_args (drop 1 argv) EmptyString w = (Normal input_file, w1) ->
  (forall e w2,
      setup env argv w1 = (Thrown e, w2) ->
      main env argv w =
      (Normal 1%Z, {| cout := cout w2; cerr := cerr w2 +:+ banner e |})) /\
  (forall e w2 w3,
      setup env argv w1 = (Normal (), w2) ->
      run env input_file w2 = (Thrown e, w3) ->
      main env argv w =
      (Normal 1%Z, {| cout := cout (MPI_finalize env w3);
                      cerr := cerr (MPI_finalize env w3) +:+ banner e |})) /\
  (forall code w2 w3,
      setup env argv w1 = (Normal (), w2) ->
      run env input_file w2 = (Exited code, w3) ->
      main env argv w = (Exited code, w3)).
Proof.
  intros Hargc Hparse.
  rewrite (main_after_parse env argv input_file w w1 Hargc Hparse).
  split; [|split].
  - intros e w2 Hsetup. unfold try_catch, try_block. cbv [mbind M_bind].
    rewrite Hsetup. apply handler_banner.
  - intros e w2 w3 Hsetup Hrun. unfold try_catch, try_block.
    cbv [mbind M_bind]. rewrite Hsetup. unfold with_destructor.
    rewrite Hrun. apply handler_banner.
  - intros code w2 w3 Hsetup Hrun. unfold try_catch, try_block.
    cbv [mbind M_bind]. rewrite Hsetup. unfold with_destructor.
    rewrite Hrun. reflexivity.
Qed.

Lemma unwinding_order_witness :
  main (logging_env (Thrown unknown_exception) (Normal ()))
       ["elasticity"; "-p"; "a.prm"] start =
  (Normal 1%Z, {| cout := EmptyString; cerr := banner unknown_exception |}) /\
  main (logging_env (Normal ()) (Thrown unknown_exception))
       ["elasticity"; "-p"; "a.prm"] start =
  (Normal 1%Z,
   {| cout := cout (hello (quiet_env 2) start).2 +:+ "MPI_Finalize" +:+ endl;
      cerr := banner unknown_exception |}) /\
  main (logging_env (Normal ()) (Exited 7))
       ["elasticity"; "-p"; "a.prm"] start =
  (Exited 7, (hello (quiet_env 2) start).2).
Proof.
  split; [|split].
  - apply (proj1 (unwinding_order
                    (logging_env (Thrown unknown_exception) (Normal ()))
                    ["elasticity"; "-p"; "a.prm"] "a.prm" start start
                    ltac:(simpl; lia) eq_refl)
             unknown_exception start).
    reflexivity.
  - apply (proj1 (proj2 (unwinding_order
                    (logging_env (Normal ()) (Thrown unknown_exception))
                    ["elasticity"; "-p"; "a.prm"] "a.prm" start start
                    ltac:(simpl; lia) eq_refl))
             unknown_exception start (hello (quiet_env 2) start).2);
      reflexivity.
  - apply (proj2 (proj2 (unwinding_order
                    (logging_env (Normal ()) (Exited 7))
                    ["elasticity"; "-p"; "a.prm"] "a.prm" start start
                    ltac:(simpl; lia) eq_refl))
             7%Z start (hello (quiet_env 2) start).2);
      reflexivity.
Defined.

End MainFacts.

